(** * Bloblang runtime: value helpers, arithmetic resolver, argument specs
    and the mapping executor.

  A shallow embedding of
    - internal/bloblang/query/type_helpers.go
    - internal/bloblang/query/arithmetic.go
    - public/bloblang/arguments.go
  together with the mapping executor, whose implementation is described by
  the specification and exercised by internal/bloblang/mapping/executor_test.go.

  Go's [interface{}] is a tagged union over the dynamic types that the code
  switches on; [int64] and friends are [Z] with the wrap-around written out;
  [float64] is the IEEE 754 binary64 model of the standard library
  ([spec_float] at precision 53 and maximal exponent 1024); functions that
  return [(T, error)] return [result T]. *)

From Stdlib Require Import ZArith String Ascii List Bool Lia.
From Stdlib Require Import Floats.SpecFloat.
From stdpp Require Import base option gmap strings list pretty.

Set Default Proof Using "Type".
Set Warnings "-register-all".

(** ** Machine numbers *)

Module Num.

Definition int64_min : Z := (- 2 ^ 63)%Z.
Definition int64_max : Z := (2 ^ 63 - 1)%Z.

Definition in_int64 (z : Z) : bool :=
  ((int64_min <=? z) && (z <=? int64_max))%Z.

(** Two's complement wrap-around of a mathematical integer into [int64]. *)
Definition wrap64 (z : Z) : Z := ((z + 2 ^ 63) mod 2 ^ 64 - 2 ^ 63)%Z.

(** [float64]: IEEE 754 binary64. *)
Definition float64 : Type := spec_float.
Definition float32 : Type := spec_float.

Definition f64_add : float64 -> float64 -> float64 := SFadd 53 1024.
Definition f64_sub : float64 -> float64 -> float64 := SFsub 53 1024.
Definition f64_mul : float64 -> float64 -> float64 := SFmul 53 1024.
Definition f64_div : float64 -> float64 -> float64 := SFdiv 53 1024.
Definition f64_eqb : float64 -> float64 -> bool := SFeqb.
Definition f64_ltb : float64 -> float64 -> bool := SFltb.
Definition f64_leb : float64 -> float64 -> bool := SFleb.
Definition f64_zero : float64 := S754_zero false.

(** [float64(i)] for an integer [i]: round to nearest, ties to even. *)
Definition f64_of_Z (z : Z) : float64 := binary_normalize 53 1024 z 0 false.

(** [float64(f)] for a [float32]: exact, re-normalised to binary64. *)
Definition f64_of_f32 (f : float32) : float64 :=
  match f with
  | S754_finite s m e => binary_round 53 1024 s m e
  | _ => f
  end.

(** The integer part of a float (truncation toward zero), when it has one. *)
Definition f64_trunc (f : float64) : option Z :=
  match f with
  | S754_zero _ => Some 0%Z
  | S754_finite s m e => Some (cond_Zopp s (Z.shiftl (Zpos m) e))
  | S754_infinity _ | S754_nan => None
  end.

(** [x == 0] on floats: true for both zeros, false for NaN. *)
Definition f64_is_zero (f : float64) : bool := f64_eqb f f64_zero.

End Num.
Export Num.

(** ** The query package: values and strict extractors *)

Module Query.

(** [ValueType] variants. *)
Inductive ValueType :=
| ValueString | ValueBytes | ValueNumber | ValueBool | ValueArray
| ValueObject | ValueNull | ValueDelete | ValueNothing | ValueUnknown.

(** The dynamic types a boxed [interface{}] is inspected for.  Go strings
    and byte slices are both byte sequences, so [string(b)] and [[]byte(s)]
    leave the payload as it is.  [int] and [uint] are 64 bits wide, so
    [int64(i)] and [int(i)] leave an [int64] or [int] as it is.  [VTime]
    carries an instant that is only ever formatted.  [VOther] stands for a
    value of any type no switch of the package names. *)
Inductive value :=
| VNil
| VString (s : string)
| VBytes (b : string)
| VInt (i : Z)
| VInt32 (i : Z)
| VInt64 (i : Z)
| VUint (u : Z)
| VUint32 (u : Z)
| VUint64 (u : Z)
| VFloat32 (f : float32)
| VFloat64 (f : float64)
| VJsonNumber (n : string)
| VRawMessage (b : string)
| VTime (t : Z)
| VBool (b : bool)
| VArray (l : list value)
| VObject (m : list (string * value))
| VDelete
| VNothing
| VOther (type_name : string).

(** [ArithmeticOperator] and all its constants. *)
Inductive ArithmeticOperator :=
| ArithmeticAdd | ArithmeticSub | ArithmeticDiv | ArithmeticMul
| ArithmeticMod | ArithmeticEq | ArithmeticNeq | ArithmeticGt
| ArithmeticLt | ArithmeticGte | ArithmeticLte | ArithmeticAnd
| ArithmeticOr | ArithmeticPipe.

(** Errors.  The formatted messages of [fmt.Errorf] are kept as their
    format and arguments. *)
Inductive error :=
| ETypeError (actual : ValueType) (expected : list ValueType)
| ErrDivideByZero
| ENumError (func : string) (num : string)
| EMismatch (nfns nops : nat)
| EUnresolved (ops : list ArithmeticOperator)
| EArgCount (expected received : nat)
| EBadArgument (index : nat) (cause : error)
| EIndexOutOfRange
| EOther (msg : string).

Inductive result (A : Type) :=
| Ok (a : A)
| Err (e : error).
Arguments Ok {A} a.
Arguments Err {A} e.

#[global] Instance result_ret : MRet result := fun A a => Ok a.
#[global] Instance result_bind : MBind result :=
  fun A B f m => match m with Ok a => f a | Err e => Err e end.
#[global] Instance result_fmap : FMap result :=
  fun A B f m => match m with Ok a => Ok (f a) | Err e => Err e end.

Definition is_ok {A} (r : result A) : bool :=
  match r with Ok _ => true | Err _ => false end.

(** What the code takes from outside the repository: [encoding/json]'s
    number parsing ([strconv]) and serialisation, [time]'s formatting,
    go-cmp's [cmp.Equal], [fmt]'s and gabs's printing, and the
    implementation-dependent result of converting a float that has no
    [int64] value. *)
Record GoEnv := {
  json_Number_Int64 : string -> option Z;
  json_Number_Float64 : string -> option float64;
  time_Format_RFC3339Nano : Z -> string;
  cmp_Equal : value -> value -> bool;
  int64_of_unrepresentable : float64 -> Z;
  fmt_Sprintf_v : value -> string;
  gabs_String : value -> string;
  json_Marshal : value -> string;
}.

Definition ITypeOf (i : value) : ValueType :=
  match i with
  | VString _ => ValueString
  | VBytes _ => ValueBytes
  | VInt _ | VInt64 _ | VUint64 _ | VFloat64 _ | VJsonNumber _ => ValueNumber
  | VBool _ => ValueBool
  | VArray _ => ValueArray
  | VObject _ => ValueObject
  | VDelete => ValueDelete
  | VNothing => ValueNothing
  | VNil => ValueNull
  | _ => ValueUnknown
  end.

(** Modelled from the spec: [NewTypeError] (errors.go is not part of the
    sources at hand) builds [TypeError(expected=[...], actual=type_of(v))]. *)
Definition NewTypeError (v : value) (types : list ValueType) : error :=
  ETypeError (ITypeOf v) types.

Section Helpers.
Context (env : GoEnv).

(** [int64(f)]: truncation toward zero when the result is an [int64]. *)
Definition int64_of_f64 (f : float64) : Z :=
  match f64_trunc f with
  | Some z => if in_int64 z then z else int64_of_unrepresentable env f
  | None => int64_of_unrepresentable env f
  end.

(** [t.Int64()] and [t.Float64()] of a [json.Number]. *)
Definition Number_Int64 (t : string) : result Z :=
  match json_Number_Int64 env t with
  | Some i => Ok i
  | None => Err (ENumError "ParseInt" t)
  end.

Definition Number_Float64 (t : string) : result float64 :=
  match json_Number_Float64 env t with
  | Some f => Ok f
  | None => Err (ENumError "ParseFloat" t)
  end.

Definition IGetNumber (v : value) : result float64 :=
  match v with
  | VInt t => Ok (f64_of_Z t)
  | VInt64 t => Ok (f64_of_Z t)
  | VUint64 t => Ok (f64_of_Z t)
  | VFloat64 t => Ok t
  | VJsonNumber t => Number_Float64 t
  | _ => Err (NewTypeError v [ValueNumber])
  end.

Definition IGetInt (v : value) : result Z :=
  match v with
  | VInt t => Ok t
  | VInt64 t => Ok t
  | VUint64 t => Ok (wrap64 t)
  | VFloat64 t => Ok (int64_of_f64 t)
  | VJsonNumber t =>
      match Number_Int64 t with
      | Ok i => Ok i
      | Err err =>
          match Number_Float64 t with
          | Ok f => Ok (int64_of_f64 f)
          | Err _ => Err err
          end
      end
  | _ => Err (NewTypeError v [ValueNumber])
  end.

Definition IGetBool (v : value) : result bool :=
  match v with
  | VBool t => Ok t
  | VInt t => Ok (negb (t =? 0)%Z)
  | VInt64 t => Ok (negb (t =? 0)%Z)
  | VUint64 t => Ok (negb (t =? 0)%Z)
  | VFloat64 t => Ok (negb (f64_is_zero t))
  | VJsonNumber t => Ok (negb (String.eqb t "0"))
  | _ => Err (NewTypeError v [ValueBool])
  end.

Definition IGetString (v : value) : result string :=
  match v with
  | VString t => Ok t
  | VBytes t => Ok t
  | _ => Err (NewTypeError v [ValueString])
  end.

Definition IIsNull (i : value) : bool :=
  match i with
  | VNil => true
  | VDelete | VNothing => true
  | _ => false
  end.

Definition IToString (i : value) : string :=
  match i with
  | VString t => t
  | VBytes t => t
  | VInt64 _ | VUint64 _ | VFloat64 _ => fmt_Sprintf_v env i
  | VJsonNumber t => t
  | VBool t => if t then "true" else "false"
  | VNil => "null"
  | _ => gabs_String env i
  end.

Definition ISanitize (i : value) : value :=
  match i with
  | VString _ | VBytes _ | VInt64 _ | VUint64 _ | VFloat64 _ | VBool _
  | VArray _ | VObject _ | VDelete | VNothing => i
  | VRawMessage t => VBytes t
  | VJsonNumber t =>
      match Number_Int64 t with
      | Ok i => VInt64 i
      | Err _ =>
          match Number_Float64 t with
          | Ok f => VFloat64 f
          | Err _ => VString t
          end
      end
  | VTime t => VString (time_Format_RFC3339Nano env t)
  | VInt t => VInt64 t
  | VInt32 t => VInt64 t
  | VUint32 t => VUint64 t
  | VUint t => VUint64 t
  | VFloat32 t => VFloat64 (f64_of_f32 t)
  | VNil | VOther _ => VNil
  end.

End Helpers.


(** ** Function nodes *)

(** The part of a message the runtime consumes: raw bytes, the structured
    (JSON) view when there is one, and the metadata. *)
Record Part := {
  part_bytes : string;
  part_structured : option value;
  part_metadata : gmap string string;
}.

(** Modelled from the spec: [FunctionContext] (functions.go is not part of
    the sources at hand) is the evaluation context
    [{ batch, index, vars, value, maps }].  Named maps are resolved by name
    inside function nodes and no operation below inspects them, so the field
    is left out. *)
Record FunctionContext := {
  Index : nat;
  MsgBatch : list Part;
  Vars : gmap string value;
  Value : option value;
}.

(** Modelled from the spec: a target path is a kind and a path. *)
Inductive TargetType := TargetMetadata | TargetValue | TargetVariable.

Record TargetPath := {
  target_type : TargetType;
  target_path : list string;
}.

Inductive TargetsContext := targetsContext.

(** Modelled from the spec: the function nodes (functions.go is not part of
    the sources at hand).  The arithmetic resolver tells two implementations
    of the [Function] interface apart: a [*Literal], and a closure with its
    target paths. *)
Inductive Function :=
| Literal (Value : value)
| ClosureFunction (exec : FunctionContext -> result value)
    (targets : TargetsContext -> list TargetPath).

(** Modelled from the spec: the constructor of a literal node. *)
Definition NewLiteralFunction (v : value) : Function := Literal v.

(** Modelled from the spec: a literal returns its value and has an empty
    target set; a closure runs its native function. *)
Definition Exec (f : Function) (ctx : FunctionContext) : result value :=
  match f with
  | Literal v => Ok v
  | ClosureFunction exec _ => exec ctx
  end.

(** Modelled from the spec: the target set of a node; empty for a literal. *)
Definition QueryTargets (f : Function) (ctx : TargetsContext) : list TargetPath :=
  match f with
  | Literal _ => []
  | ClosureFunction _ targets => targets ctx
  end.

(** Modelled from the spec: an arithmetic node's target set is the union of
    its children's target sets. *)
Definition aggregateTargetPaths (lhs rhs : Function) (ctx : TargetsContext)
  : list TargetPath :=
  QueryTargets lhs ctx ++ QueryTargets rhs ctx.

(** ** arithmetic.go *)

Definition arithmeticOpFunc : Type := value -> value -> result value.

(** The closure [arithmeticFunc] builds when it does not fold. *)
Definition arithmeticClosure (lhs rhs : Function) (op : arithmeticOpFunc)
  : Function :=
  ClosureFunction
    (fun ctx =>
       match Exec lhs ctx with
       | Ok leftV =>
           match Exec rhs ctx with
           | Ok rightV => op leftV rightV
           | Err err => Err err
           end
       | Err err => Err err
       end)
    (aggregateTargetPaths lhs rhs).

Definition arithmeticFunc (lhs rhs : Function) (op : arithmeticOpFunc)
  : result Function :=
  match lhs, rhs with
  | Literal litL, Literal litR =>
      match op litL litR with
      | Err err => Err err
      | Ok res => Ok (NewLiteralFunction res)
      end
  | _, _ => Ok (arithmeticClosure lhs rhs op)
  end.

Definition intArithmeticFunc : Type := Z -> Z -> result Z.
Definition floatArithmeticFunc : Type := float64 -> float64 -> result float64.

Section Arithmetic.
Context (env : GoEnv).

Definition numberDegradationFunc (iFn : intArithmeticFunc)
    (fFn : floatArithmeticFunc) : arithmeticOpFunc :=
  fun left right =>
    let left := ISanitize env left in
    let right := ISanitize env right in
    match left with
    | VFloat64 leftFloat =>
        rightFloat ← IGetNumber env right;
        VFloat64 <$> fFn leftFloat rightFloat
    | _ =>
        match right with
        | VFloat64 rightFloat =>
            leftFloat ← IGetNumber env left;
            VFloat64 <$> fFn leftFloat rightFloat
        | _ =>
            leftInt ← IGetInt env left;
            rightInt ← IGetInt env right;
            VInt64 <$> iFn leftInt rightInt
        end
    end.

Definition mulOp : arithmeticOpFunc :=
  numberDegradationFunc
    (fun lhs rhs => Ok (wrap64 (lhs * rhs)))
    (fun lhs rhs => Ok (f64_mul lhs rhs)).

(** Only executes on float values. *)
Definition divOp : arithmeticOpFunc :=
  fun left right =>
    lhs ← IGetNumber env left;
    rhs ← IGetNumber env right;
    if f64_is_zero rhs then Err ErrDivideByZero
    else Ok (VFloat64 (f64_div lhs rhs)).

(** Only executes on integer values.  Go's [%] truncates toward zero. *)
Definition modOp : arithmeticOpFunc :=
  fun left right =>
    lhs ← IGetInt env left;
    rhs ← IGetInt env right;
    if (rhs =? 0)%Z then Err ErrDivideByZero
    else Ok (VInt64 (Z.rem lhs rhs)).

Definition prodOp (op : ArithmeticOperator) : option arithmeticOpFunc :=
  match op with
  | ArithmeticMul => Some mulOp
  | ArithmeticDiv => Some divOp
  | ArithmeticMod => Some modOp
  | _ => None
  end.

Definition numberAdd : arithmeticOpFunc :=
  numberDegradationFunc
    (fun left right => Ok (wrap64 (left + right)))
    (fun left right => Ok (f64_add left right)).

Definition addOp : arithmeticOpFunc :=
  fun left right =>
    match left with
    | VFloat64 _ | VInt _ | VInt64 _ | VUint64 _ | VJsonNumber _ =>
        numberAdd left right
    | VString _ | VBytes _ =>
        lhs ← IGetString left;
        rhs ← IGetString right;
        Ok (VString (lhs ++ rhs))
    | _ => Err (NewTypeError left [ValueNumber; ValueString])
    end.

Definition subOp : arithmeticOpFunc :=
  numberDegradationFunc
    (fun lhs rhs => Ok (wrap64 (lhs - rhs)))
    (fun lhs rhs => Ok (f64_sub lhs rhs)).

Definition sumOp (op : ArithmeticOperator) : option arithmeticOpFunc :=
  match op with
  | ArithmeticAdd => Some addOp
  | ArithmeticSub => Some subOp
  | _ => None
  end.

(** Comparison functions; [None] is Go's [nil] function. *)

Definition compareNumFn (op : ArithmeticOperator)
  : option (float64 -> float64 -> bool) :=
  match op with
  | ArithmeticEq => Some (fun lhs rhs => f64_eqb lhs rhs)
  | ArithmeticNeq => Some (fun lhs rhs => negb (f64_eqb lhs rhs))
  | ArithmeticGt => Some (fun lhs rhs => f64_ltb rhs lhs)
  | ArithmeticGte => Some (fun lhs rhs => f64_leb rhs lhs)
  | ArithmeticLt => Some (fun lhs rhs => f64_ltb lhs rhs)
  | ArithmeticLte => Some (fun lhs rhs => f64_leb lhs rhs)
  | _ => None
  end.

Definition compareStrFn (op : ArithmeticOperator)
  : option (string -> string -> bool) :=
  match op with
  | ArithmeticEq => Some (fun lhs rhs => String.eqb lhs rhs)
  | ArithmeticNeq => Some (fun lhs rhs => negb (String.eqb lhs rhs))
  | ArithmeticGt => Some (fun lhs rhs => String.ltb rhs lhs)
  | ArithmeticGte => Some (fun lhs rhs => String.leb rhs lhs)
  | ArithmeticLt => Some (fun lhs rhs => String.ltb lhs rhs)
  | ArithmeticLte => Some (fun lhs rhs => String.leb lhs rhs)
  | _ => None
  end.

Definition compareBoolFn (op : ArithmeticOperator)
  : option (bool -> bool -> bool) :=
  match op with
  | ArithmeticEq => Some (fun lhs rhs => Bool.eqb lhs rhs)
  | ArithmeticNeq => Some (fun lhs rhs => negb (Bool.eqb lhs rhs))
  | _ => None
  end.

Definition compareGenericFn (op : ArithmeticOperator)
  : option (value -> value -> bool) :=
  match op with
  | ArithmeticEq => Some (fun lhs rhs => cmp_Equal env lhs rhs)
  | ArithmeticNeq => Some (fun lhs rhs => negb (cmp_Equal env lhs rhs))
  | _ => None
  end.

Definition restrictForComparison (v : value) : value :=
  let v := ISanitize env v in
  match v with
  | VInt64 t => VFloat64 (f64_of_Z t)
  | VUint64 t => VFloat64 (f64_of_Z t)
  | VJsonNumber t =>
      match IGetNumber env (VJsonNumber t) with
      | Ok f => VFloat64 f
      | Err _ => v
      end
  | VBytes t => VString t
  | _ => v
  end.

Definition is_ArithmeticNeq (op : ArithmeticOperator) : bool :=
  match op with ArithmeticNeq => true | _ => false end.

(** The closure returned by [compareOp] for a comparison operator. *)
Definition compareFn (op : ArithmeticOperator) : arithmeticOpFunc :=
  let strOpFn := compareStrFn op in
  let numOpFn := compareNumFn op in
  let boolOpFn := compareBoolFn op in
  let genericOpFn := compareGenericFn op in
  fun left right =>
    match restrictForComparison left with
    | VString lhs =>
        match strOpFn with
        | None => Err (NewTypeError left [])
        | Some strOpFn =>
            match IGetString right with
            | Err err =>
                if is_ArithmeticNeq op then Ok (VBool true) else Err err
            | Ok rhs => Ok (VBool (strOpFn lhs rhs))
            end
        end
    | VFloat64 lhs =>
        match numOpFn with
        | None => Err (NewTypeError left [])
        | Some numOpFn =>
            match IGetNumber env right with
            | Err err =>
                if is_ArithmeticNeq op then Ok (VBool true) else Err err
            | Ok rhs => Ok (VBool (numOpFn lhs rhs))
            end
        end
    | VBool lhs =>
        match boolOpFn with
        | None => Err (NewTypeError left [])
        | Some boolOpFn =>
            match IGetBool right with
            | Err err =>
                if is_ArithmeticNeq op then Ok (VBool true) else Err err
            | Ok rhs => Ok (VBool (boolOpFn lhs rhs))
            end
        end
    | _ =>
        match genericOpFn with
        | None => Err (NewTypeError left [])
        | Some genericOpFn => Ok (VBool (genericOpFn left right))
        end
    end.

Definition compareOp (op : ArithmeticOperator) : option arithmeticOpFunc :=
  match op with
  | ArithmeticEq | ArithmeticNeq | ArithmeticGt | ArithmeticGte
  | ArithmeticLt | ArithmeticLte => Some (compareFn op)
  | _ => None
  end.

Definition boolOr (lhs rhs : Function) : Function :=
  ClosureFunction
    (fun ctx =>
       lhsV ← Exec lhs ctx;
       b ← IGetBool lhsV;
       if b : bool then Ok (VBool true)
       else
         rhsV ← Exec rhs ctx;
         b ← IGetBool rhsV;
         Ok (VBool b))
    (aggregateTargetPaths lhs rhs).

Definition boolAnd (lhs rhs : Function) : Function :=
  ClosureFunction
    (fun ctx =>
       lhsV ← Exec lhs ctx;
       b ← IGetBool lhsV;
       if negb b then Ok (VBool false)
       else
         rhsV ← Exec rhs ctx;
         b ← IGetBool rhsV;
         Ok (VBool b))
    (aggregateTargetPaths lhs rhs).

Definition coalesce (lhs rhs : Function) : Function :=
  ClosureFunction
    (fun ctx =>
       match Exec lhs ctx with
       | Ok lhsV => if negb (IIsNull lhsV) then Ok lhsV else Exec rhs ctx
       | Err _ => Exec rhs ctx
       end)
    (aggregateTargetPaths lhs rhs).

(** Slice indexing [s[i]]; out of range is Go's run-time panic. *)
Definition index {A} (s : list A) (i : nat) : result A :=
  match s !! i with
  | Some a => Ok a
  | None => Err EIndexOutOfRange
  end.

(** [for i, op := range ops { ... }] over a state, leaving on the first
    error. *)
Fixpoint range_ops {St : Type}
    (body : nat -> ArithmeticOperator -> St -> result St)
    (i : nat) (ops : list ArithmeticOperator) (st : St) : result St :=
  match ops with
  | [] => Ok st
  | op :: ops' => st' ← body i op st; range_ops body (S i) ops' st'
  end.

Definition passState : Type := list Function * list ArithmeticOperator.

(** [fnsNew[len(fnsNew)-1], err = arithmeticFunc(fnsNew[len(fnsNew)-1], fns[i+1], opFunc)] *)
Definition foldLast (fns : list Function) (i : nat) (opFunc : arithmeticOpFunc)
    (st : passState) : result passState :=
  let '(fnsNew, opsNew) := st in
  l ← index fnsNew (length fnsNew - 1);
  r ← index fns (i + 1);
  f ← arithmeticFunc l r opFunc;
  Ok (<[length fnsNew - 1 := f]> fnsNew, opsNew).

(** [fnsNew[len(fnsNew)-1] = mk(fnsNew[len(fnsNew)-1], fns[i+1])] *)
Definition replaceLast (fns : list Function) (i : nat)
    (mk : Function -> Function -> Function) (st : passState)
  : result passState :=
  let '(fnsNew, opsNew) := st in
  l ← index fnsNew (length fnsNew - 1);
  r ← index fns (i + 1);
  Ok (<[length fnsNew - 1 := mk l r]> fnsNew, opsNew).

(** [fnsNew = append(fnsNew, fns[i+1]); opsNew = append(opsNew, op)] *)
Definition keep (fns : list Function) (i : nat) (op : ArithmeticOperator)
    (st : passState) : result passState :=
  let '(fnsNew, opsNew) := st in
  r ← index fns (i + 1);
  Ok (fnsNew ++ [r], opsNew ++ [op]).

(** First pass to resolve division, multiplication and coalesce. *)
Definition firstPass (fns : list Function) (i : nat) (op : ArithmeticOperator)
    (st : passState) : result passState :=
  match prodOp op with
  | Some opFunc => foldLast fns i opFunc st
  | None =>
      match op with
      | ArithmeticPipe => replaceLast fns i coalesce st
      | _ => keep fns i op st
      end
  end.

(** Second pass to resolve addition and subtraction. *)
Definition secondPass (fns : list Function) (i : nat) (op : ArithmeticOperator)
    (st : passState) : result passState :=
  match sumOp op with
  | Some opFunc => foldLast fns i opFunc st
  | None => keep fns i op st
  end.

(** Third pass for numerical comparison. *)
Definition thirdPass (fns : list Function) (i : nat) (op : ArithmeticOperator)
    (st : passState) : result passState :=
  match compareOp op with
  | Some opFunc => foldLast fns i opFunc st
  | None => keep fns i op st
  end.

(** Fourth pass for boolean operators. *)
Definition fourthPass (fns : list Function) (i : nat) (op : ArithmeticOperator)
    (st : passState) : result passState :=
  match op with
  | ArithmeticAnd => replaceLast fns i boolAnd st
  | ArithmeticOr => replaceLast fns i boolOr st
  | _ => keep fns i op st
  end.

(** One pass: [fnsNew, opsNew := []Function{fns[0]}, []ArithmeticOperator{}]
    followed by the loop. *)
Definition runPass
    (body : list Function -> nat -> ArithmeticOperator -> passState -> result passState)
    (fns : list Function) (ops : list ArithmeticOperator) : result passState :=
  f0 ← index fns 0;
  range_ops (body fns) 0 ops ([f0], []).

Definition NewArithmeticExpression (fns : list Function)
    (ops : list ArithmeticOperator) : result Function :=
  if (length fns =? 1) && (length ops =? 0) then index fns 0
  else if negb (length fns =? length ops + 1)
  then Err (EMismatch (length fns) (length ops))
  else
    '(fns, ops) ← runPass firstPass fns ops;
    if length fns =? 1 then index fns 0 else
    '(fns, ops) ← runPass secondPass fns ops;
    if length fns =? 1 then index fns 0 else
    '(fns, ops) ← runPass thirdPass fns ops;
    if length fns =? 1 then index fns 0 else
    '(fns, ops) ← runPass fourthPass fns ops;
    if length fns =? 1 then index fns 0 else
    Err (EUnresolved ops).

End Arithmetic.

End Query.

(** ** The precedence table, as a grouping into a tree *)

Module Precedence.
Import Query.

(** The table: [*], [/], [%] and [|] bind tightest, then [+] and [-], then
    the comparisons, then [&&] and [||]. *)
Definition level (op : ArithmeticOperator) : nat :=
  match op with
  | ArithmeticMul | ArithmeticDiv | ArithmeticMod | ArithmeticPipe => 0
  | ArithmeticAdd | ArithmeticSub => 1
  | ArithmeticEq | ArithmeticNeq | ArithmeticGt | ArithmeticGte
  | ArithmeticLt | ArithmeticLte => 2
  | ArithmeticAnd | ArithmeticOr => 3
  end.

Inductive expr :=
| ELeaf (f : Function)
| EBin (op : ArithmeticOperator) (l r : expr).

(** A non-empty operand sequence [a_0 op_0 a_1 ... op_(n-1) a_n]. *)
Definition chain (A : Type) : Type := A * list (ArithmeticOperator * A).

(** Cut a sequence at the operators satisfying [P]: the operands up to the
    first cut, and the later segments with the operator in front of each. *)
Fixpoint split_pairs {A} (P : ArithmeticOperator -> bool)
    (pairs : list (ArithmeticOperator * A))
  : list (ArithmeticOperator * A) * list (ArithmeticOperator * chain A) :=
  match pairs with
  | [] => ([], [])
  | (op, a) :: rest =>
      let '(seg, segs) := split_pairs P rest in
      if P op then ([], (op, (a, seg)) :: segs) else ((op, a) :: seg, segs)
  end.

(** Applying [g] to every operand of a sequence. *)
Definition map_pairs {A B} (g : A -> B)
    (pairs : list (ArithmeticOperator * A)) : list (ArithmeticOperator * B) :=
  map (fun '(op, a) => (op, g a)) pairs.

(** Left-to-right fold of a sequence of trees. *)
Definition fold_chain (c : chain expr) : expr :=
  fold_left (fun acc '(op, t) => EBin op acc t) c.2 c.1.

(** [group n c]: the tree of a sequence whose operators have level below
    [n]; the loosest operators are the outermost, grouped to the left. *)
Fixpoint group (n : nat) (c : chain expr) : expr :=
  match n with
  | 0 => c.1
  | S n' =>
      let '(seg, segs) := split_pairs (fun op => n' <=? level op) c.2 in
      fold_chain (group n' (c.1, seg), map_pairs (group n') segs)
  end.

(** The operand sequence of [fns] and [ops], when there is one operand more
    than there are operators. *)
Definition leaves (fns : list Function) (ops : list ArithmeticOperator)
  : option (chain expr) :=
  match fns with
  | f0 :: rest =>
      if length rest =? length ops
      then Some (ELeaf f0, zip ops (map ELeaf rest))
      else None
  | [] => None
  end.

(** The tree the precedence table prescribes for a flat sequence: cut at
    [&&] and [||], inside each segment at the comparisons, inside those at
    [+] and [-], and fold every level to the left. *)
Definition precedence_tree (fns : list Function)
    (ops : list ArithmeticOperator) : option expr :=
  group 4 <$> leaves fns ops.

Section Eval.
Context (env : GoEnv).

(** The function on values of each strict binary operator. *)
Definition opFunc (op : ArithmeticOperator) : arithmeticOpFunc :=
  match op with
  | ArithmeticMul => mulOp env
  | ArithmeticDiv => divOp env
  | ArithmeticMod => modOp env
  | ArithmeticAdd => addOp env
  | ArithmeticSub => subOp env
  | _ => compareFn env op
  end.

(** The value of a tree: [|] falls back to its right side, [&&] and [||]
    short-circuit, every other operator evaluates left then right. *)
Fixpoint eval (e : expr) (ctx : FunctionContext) : result value :=
  match e with
  | ELeaf f => Exec f ctx
  | EBin op l r =>
      match op with
      | ArithmeticPipe =>
          match eval l ctx with
          | Ok v => if IIsNull v then eval r ctx else Ok v
          | Err _ => eval r ctx
          end
      | ArithmeticAnd =>
          lv ← eval l ctx;
          b ← IGetBool lv;
          if b : bool then rv ← eval r ctx; b' ← IGetBool rv; Ok (VBool b')
          else Ok (VBool false)
      | ArithmeticOr =>
          lv ← eval l ctx;
          b ← IGetBool lv;
          if b : bool then Ok (VBool true)
          else rv ← eval r ctx; b' ← IGetBool rv; Ok (VBool b')
      | _ =>
          lv ← eval l ctx;
          rv ← eval r ctx;
          opFunc op lv rv
      end
  end.

(** The operators that evaluate both operands before applying a function
    on values. *)
Definition strict (op : ArithmeticOperator) : bool :=
  match op with
  | ArithmeticPipe | ArithmeticAnd | ArithmeticOr => false
  | _ => true
  end.

(** The error of a strict operator applied to two values, as constant
    folding meets it at build time. *)
Definition folding_error (e : error) : Prop :=
  exists op a b, strict op = true /\ opFunc op a b = Err e.

(** A function node and a tree agree when they evaluate alike in every
    context. *)
Definition agrees (f : Function) (t : expr) : Prop :=
  forall ctx, Exec f ctx = eval t ctx.

(** *** The passes of the resolver, restated for the proofs *)

(** What each pass of [NewArithmeticExpression] does with an operator:
    combine the operand on its left with the one on its right ([Some]), or
    leave it for a later pass ([None]). *)
Definition combiner : Type := Function -> Function -> result Function.

Definition step1 (op : ArithmeticOperator) : option combiner :=
  match prodOp env op with
  | Some f => Some (fun l r => arithmeticFunc l r f)
  | None =>
      match op with
      | ArithmeticPipe => Some (fun l r => Ok (coalesce l r))
      | _ => None
      end
  end.

Definition step2 (op : ArithmeticOperator) : option combiner :=
  match sumOp env op with
  | Some f => Some (fun l r => arithmeticFunc l r f)
  | None => None
  end.

Definition step3 (op : ArithmeticOperator) : option combiner :=
  match compareOp env op with
  | Some f => Some (fun l r => arithmeticFunc l r f)
  | None => None
  end.

Definition step4 (op : ArithmeticOperator) : option combiner :=
  match op with
  | ArithmeticAnd => Some (fun l r => Ok (boolAnd l r))
  | ArithmeticOr => Some (fun l r => Ok (boolOr l r))
  | _ => None
  end.

End Eval.

(** The loop body of a pass, for any such step. *)
Definition stepBody (step : ArithmeticOperator -> option combiner)
    (fns : list Function) (i : nat) (op : ArithmeticOperator)
    (st : passState) : result passState :=
  match step op with
  | Some mk =>
      let '(fnsNew, opsNew) := st in
      l ← index fnsNew (length fnsNew - 1);
      r ← index fns (i + 1);
      f ← mk l r;
      Ok (<[length fnsNew - 1 := f]> fnsNew, opsNew)
  | None => keep fns i op st
  end.

(** The same pass by recursion on the operand sequence. *)
Fixpoint fn_pass (step : ArithmeticOperator -> option combiner)
    (cur : Function) (pairs : list (ArithmeticOperator * Function))
  : result (chain Function) :=
  match pairs with
  | [] => Ok (cur, [])
  | (op, f) :: rest =>
      match step op with
      | Some mk => cur' ← mk cur f; fn_pass step cur' rest
      | None => c ← fn_pass step f rest; Ok (cur, (op, c.1) :: c.2)
      end
  end.

Definition unchain (c : chain Function) : passState :=
  (c.1 :: map snd c.2, map fst c.2).

(** The rest of [NewArithmeticExpression] after each of its passes. *)
Definition after_fourth (st : passState) : result Function :=
  let '(fns, ops) := st in
  if length fns =? 1 then index fns 0 else Err (EUnresolved ops).

Definition after_third (st : passState) : result Function :=
  let '(fns, ops) := st in
  if length fns =? 1 then index fns 0 else
  runPass fourthPass fns ops ≫= after_fourth.

Definition after_second (env : GoEnv) (st : passState) : result Function :=
  let '(fns, ops) := st in
  if length fns =? 1 then index fns 0 else
  runPass (thirdPass env) fns ops ≫= after_third.

Definition after_first (env : GoEnv) (st : passState) : result Function :=
  let '(fns, ops) := st in
  if length fns =? 1 then index fns 0 else
  runPass (secondPass env) fns ops ≫= after_second env.

(** Operand sequences that agree operator by operator and operand by
    operand. *)
Definition chain_agrees (env : GoEnv) (c : chain Function) (t : chain expr)
  : Prop :=
  agrees env c.1 t.1 /\
  Forall2 (fun x y => x.1 = y.1 /\ agrees env x.2 y.2) c.2 t.2.

(** A step resolves exactly the operators in [Q], and what it builds agrees
    with the tree of the operator over its operands. *)
Definition step_sound (env : GoEnv)
    (step : ArithmeticOperator -> option combiner)
    (Q : ArithmeticOperator -> bool) : Prop :=
  forall op,
    match step op with
    | Some mk =>
        Q op = true /\
        forall l r f tl tr,
          mk l r = Ok f -> agrees env l tl -> agrees env r tr ->
          agrees env f (EBin op tl tr)
    | None => Q op = false
    end.

(** One bottom-up pass over a sequence of trees: fold the operators in [Q]
    into the operand on their left, keep the others. *)
Fixpoint tree_pass (Q : ArithmeticOperator -> bool) (cur : expr)
    (pairs : list (ArithmeticOperator * expr)) : chain expr :=
  match pairs with
  | [] => (cur, [])
  | (op, t) :: rest =>
      if Q op then tree_pass Q (EBin op cur t) rest
      else
        let c := tree_pass Q t rest in
        (cur, (op, c.1) :: c.2)
  end.

Definition at_level (n : nat) (op : ArithmeticOperator) : bool :=
  level op =? n.

(** The passes for the levels below [n], tightest first. *)
Fixpoint passes (n : nat) (c : chain expr) : chain expr :=
  match n with
  | 0 => c
  | S n' => let c' := passes n' c in tree_pass (at_level n') c'.1 c'.2
  end.

(** A segment cut once more at the operators satisfying [P]. *)
Definition nest {A} (P : ArithmeticOperator -> bool) (s : chain A)
  : chain (chain A) :=
  ((s.1, (split_pairs P s.2).1), (split_pairs P s.2).2).

End Precedence.

(** ** public/bloblang/arguments.go *)

Module Bloblang.
Import Query.

(** Pointer receivers are addresses into a store of boxed cells. *)
Definition ptr : Type := positive.
Abbreviation store := (gmap positive value).

(** A validator reads the arguments and may write through its pointer; it
    returns the store and Go's [error] ([None] is [nil]). *)
Definition validator : Type := list value -> store -> store * option error.

Record ArgSpec := {
  n : nat;
  validators : list validator;
}.

Definition NewArgSpec : ArgSpec := {| n := 0; validators := [] |}.

Fixpoint run_validators (vs : list validator) (args : list value)
    (st : store) : store * option error :=
  match vs with
  | [] => (st, None)
  | v :: vs' =>
      match v args st with
      | (st', Some err) => (st', Some err)
      | (st', None) => run_validators vs' args st'
      end
  end.

Definition Extract (a : ArgSpec) (args : list value) (st : store)
  : store * option error :=
  if negb (length args =? n a)
  then (st, Some (EArgCount (n a) (length args)))
  else run_validators (validators a) args st.

Section Vars.
Context (env : GoEnv).

(** The closure appended by a typed [*Var] method: read [args[index]],
    extract, and on success store the boxed result through the pointer. *)
Definition typed_validator (index : nat) (get : value -> result value)
    (p : ptr) : validator :=
  fun args st =>
    match args !! index with
    | None => (st, Some EIndexOutOfRange)
    | Some arg =>
        match get arg with
        | Err err => (st, Some (EBadArgument index err))
        | Ok v => (<[p := v]> st, None)
        end
    end.

Definition register (v : nat -> validator) (a : ArgSpec) : ArgSpec :=
  let index := n a in
  {| n := S (n a); validators := validators a ++ [v index] |}.

(** [*i = int(v)]: the extracted [int64] is stored as an [int]. *)
Definition IntVar (i : ptr) (a : ArgSpec) : ArgSpec :=
  register (fun index =>
    typed_validator index (fun arg => VInt <$> IGetInt env arg) i) a.

Definition Int64Var (i : ptr) (a : ArgSpec) : ArgSpec :=
  register (fun index =>
    typed_validator index (fun arg => VInt64 <$> IGetInt env arg) i) a.

Definition Float64Var (f : ptr) (a : ArgSpec) : ArgSpec :=
  register (fun index =>
    typed_validator index (fun arg => VFloat64 <$> IGetNumber env arg) f) a.

Definition BoolVar (b : ptr) (a : ArgSpec) : ArgSpec :=
  register (fun index =>
    typed_validator index (fun arg => VBool <$> IGetBool arg) b) a.

Definition StringVar (s : ptr) (a : ArgSpec) : ArgSpec :=
  register (fun index =>
    typed_validator index (fun arg => VString <$> IGetString arg) s) a.

Definition AnyVar (i : ptr) (a : ArgSpec) : ArgSpec :=
  register (fun index => fun args st =>
    match args !! index with
    | None => (st, Some EIndexOutOfRange)
    | Some arg => (<[i := arg]> st, None)
    end) a.

(** A chain of registrations [NewArgSpec().XVar(p1).YVar(p2)...]. *)
Inductive argdecl :=
| DInt (p : ptr) | DInt64 (p : ptr) | DFloat64 (p : ptr)
| DBool (p : ptr) | DString (p : ptr) | DAny (p : ptr).

Definition decl_ptr (d : argdecl) : ptr :=
  match d with
  | DInt p | DInt64 p | DFloat64 p | DBool p | DString p | DAny p => p
  end.

Definition declare (a : ArgSpec) (d : argdecl) : ArgSpec :=
  match d with
  | DInt p => IntVar p a
  | DInt64 p => Int64Var p a
  | DFloat64 p => Float64Var p a
  | DBool p => BoolVar p a
  | DString p => StringVar p a
  | DAny p => AnyVar p a
  end.

Definition build (decls : list argdecl) : ArgSpec :=
  fold_left declare decls NewArgSpec.

(** The typed extraction a declaration applies to its argument. *)
Definition extraction (d : argdecl) (arg : value) : result value :=
  match d with
  | DInt _ => VInt <$> IGetInt env arg
  | DInt64 _ => VInt64 <$> IGetInt env arg
  | DFloat64 _ => VFloat64 <$> IGetNumber env arg
  | DBool _ => VBool <$> IGetBool arg
  | DString _ => VString <$> IGetString arg
  | DAny _ => Ok arg
  end.

End Vars.

End Bloblang.

(** ** The mapping executor *)

Module Mapping.
Import Query.

(** Modelled from the spec: the assignment targets (the mapping package's
    implementation is not part of the sources at hand, only its tests);
    [None] is the root. *)
Inductive Assignment :=
| TargetJSON (path : option (list string))
| TargetMeta (key : option string)
| TargetVar (name : string).

(** Modelled from the spec: a statement is a source line, a target and a
    query function. *)
Record Statement := {
  line : nat;
  target : Assignment;
  query : Function;
}.

(** Modelled from the spec: the compiled unit, statements and named maps. *)
Record Executor := {
  statements : list Statement;
  named_maps : gmap string Function;
}.

(** Modelled from the spec: the error kinds of assignments and mappings. *)
Inductive AssignError :=
| MetaUnavailable
| MetaRootType (actual : ValueType)
| PartMissing.

Inductive MapError :=
| MapQuery (line : nat) (cause : error)
| MapAssign (line : nat) (cause : AssignError)
| Cancelled.

Inductive outcome (A : Type) :=
| Done (a : A)
| Failed (e : MapError).
Arguments Done {A} a.
Arguments Failed {A} e.

(** Modelled from the spec: the pending result of one invocation (structured
    payload, metadata, and whether the part is marked for deletion), with
    the variable bag of the invocation. *)
Record Pending := {
  payload : option value;
  meta : gmap string string;
  vars : gmap string value;
  deleted : bool;
}.

(** Objects are association lists; these are their lookup, removal and
    update by key. *)
Fixpoint assoc_get (k : string) (m : list (string * value)) : option value :=
  match m with
  | [] => None
  | (k', v) :: m' => if String.eqb k k' then Some v else assoc_get k m'
  end.

Fixpoint assoc_del (k : string) (m : list (string * value))
  : list (string * value) :=
  match m with
  | [] => []
  | (k', v) :: m' =>
      if String.eqb k k' then assoc_del k m' else (k', v) :: assoc_del k m'
  end.

Definition assoc_set (k : string) (v : value) (m : list (string * value))
  : list (string * value) :=
  (k, v) :: assoc_del k m.

Definition fields (v : value) : list (string * value) :=
  match v with VObject m => m | _ => [] end.

(** Modelled from the spec: writing a leaf at a path of the structured
    payload; intermediate objects are created as needed. *)
Fixpoint set_path (segments : list string) (v : value) (cur : value) : value :=
  match segments with
  | [] => v
  | k :: rest =>
      let child := default (VObject []) (assoc_get k (fields cur)) in
      VObject (assoc_set k (set_path rest v child) (fields cur))
  end.

(** Modelled from the spec: removing the leaf key at a path. *)
Fixpoint delete_path (segments : list string) (cur : value) : value :=
  match segments, cur with
  | [], _ => cur
  | [k], VObject m => VObject (assoc_del k m)
  | k :: rest, VObject m =>
      match assoc_get k m with
      | Some child => VObject (assoc_set k (delete_path rest child) m)
      | None => cur
      end
  | _, _ => cur
  end.

Section Executor.
Context (env : GoEnv).

(** Modelled from the spec: assignment to the structured payload (section
    4.4).  At the root, [Delete] marks the whole part for deletion,
    [Nothing] changes nothing, any other value replaces the payload (and so
    resurrects a part marked before).  At a path, [Delete] removes the leaf
    key, [Nothing] changes nothing, any other value is set at the leaf. *)
Definition apply_json (path : option (list string)) (v : value) (st : Pending)
  : Pending :=
  match path with
  | None =>
      match v with
      | VDelete =>
          {| payload := payload st; meta := meta st; vars := vars st;
             deleted := true |}
      | VNothing => st
      | _ =>
          {| payload := Some v; meta := meta st; vars := vars st;
             deleted := false |}
      end
  | Some segments =>
      match v with
      | VDelete =>
          {| payload := delete_path segments <$> payload st; meta := meta st;
             vars := vars st; deleted := deleted st |}
      | VNothing => st
      | _ =>
          {| payload :=
               Some (set_path segments v (default (VObject []) (payload st)));
             meta := meta st; vars := vars st; deleted := deleted st |}
      end
  end.

(** Modelled from the spec: assignment to the metadata (section 4.4).  At
    the root the value must be an object, which replaces the metadata;
    [Delete] clears it and [Nothing] leaves it.  At a key the value is
    stringified; [Delete] removes the key and [Nothing] is a no-op. *)
Definition apply_meta (key : option string) (v : value) (st : Pending)
  : AssignError + Pending :=
  match key with
  | None =>
      match v with
      | VDelete =>
          inr {| payload := payload st; meta := ∅; vars := vars st;
                 deleted := deleted st |}
      | VNothing => inr st
      | VObject m =>
          inr {| payload := payload st;
                 meta := list_to_map (map (fun kv => (kv.1, IToString env kv.2)) m);
                 vars := vars st; deleted := deleted st |}
      | _ => inl (MetaRootType (ITypeOf v))
      end
  | Some k =>
      match v with
      | VDelete =>
          inr {| payload := payload st; meta := delete k (meta st);
                 vars := vars st; deleted := deleted st |}
      | VNothing => inr st
      | _ =>
          inr {| payload := payload st;
                 meta := <[k := IToString env v]> (meta st);
                 vars := vars st; deleted := deleted st |}
      end
  end.

(** Modelled from the spec: assignment to a variable (section 4.4);
    [Delete] and [Nothing] act as for a metadata key. *)
Definition apply_var (name : string) (v : value) (st : Pending) : Pending :=
  match v with
  | VDelete =>
      {| payload := payload st; meta := meta st;
         vars := delete name (vars st); deleted := deleted st |}
  | VNothing => st
  | _ =>
      {| payload := payload st; meta := meta st;
         vars := <[name := v]> (vars st); deleted := deleted st |}
  end.

(** Modelled from the spec: applying a value to an assignment target. *)
Definition apply (a : Assignment) (v : value) (st : Pending)
  : AssignError + Pending :=
  match a with
  | TargetJSON path => inr (apply_json path v st)
  | TargetMeta key => apply_meta key v st
  | TargetVar name => inr (apply_var name v st)
  end.

(** Modelled from the spec: the pending result starts as a copy of the
    structured payload and metadata of [batch[index]], with no variables
    (section 4.5). *)
Definition initial (p : Part) : Pending :=
  {| payload := part_structured p; meta := part_metadata p; vars := ∅;
     deleted := false |}.

(** Modelled from the spec: the context a statement's query is evaluated in;
    [this] is the structured payload of the input part. *)
Definition context (index : nat) (batch : list Part) (p : Part) (st : Pending)
  : FunctionContext :=
  {| Index := index; MsgBatch := batch; Vars := vars st;
     Value := part_structured p |}.

(** Modelled from the spec: the statements run in order; a failing query
    aborts with [Query{line, cause}], a failing assignment with
    [Assign{line, cause}]. *)
Fixpoint run (index : nat) (batch : list Part) (p : Part)
    (stmts : list Statement) (st : Pending) : outcome Pending :=
  match stmts with
  | [] => Done st
  | s :: rest =>
      match Exec (query s) (context index batch p st) with
      | Err cause => Failed (MapQuery (line s) cause)
      | Ok v =>
          match apply (target s) v st with
          | inl cause => Failed (MapAssign (line s) cause)
          | inr st' => run index batch p rest st'
          end
      end
  end.

(** Modelled from the spec: materialisation; no part when the pending
    result is marked deleted, otherwise the serialised payload (a string or
    bytes payload passes through as it is) with the pending metadata. *)
Definition materialize (p : Part) (st : Pending) : option Part :=
  if deleted st then None
  else
    Some {| part_bytes :=
              match payload st with
              | None => part_bytes p
              | Some (VString s) => s
              | Some (VBytes b) => b
              | Some v => json_Marshal env v
              end;
            part_structured := payload st;
            part_metadata := meta st |}.

(** Modelled from the spec: [map_part(index, batch)] (section 4.5;
    executor.go is not part of the sources at hand).  The spec names no
    result for an index outside the batch; the error it has for a missing
    part stands for it. *)
Definition MapPart (e : Executor) (index : nat) (batch : list Part)
  : outcome (option Part) :=
  match batch !! index with
  | None => Failed (MapAssign 0 PartMissing)
  | Some p =>
      match run index batch p (statements e) (initial p) with
      | Failed err => Failed err
      | Done st => Done (materialize p st)
      end
  end.

End Executor.

End Mapping.

(** ** A concrete environment for the examples *)

Module Example.
Import Query.

Fixpoint digits (s : string) (acc : Z) : option Z :=
  match s with
  | EmptyString => Some acc
  | String c s' =>
      let d := Z.of_nat (nat_of_ascii c) in
      if ((48 <=? d) && (d <=? 57))%Z
      then digits s' (10 * acc + (d - 48))%Z
      else None
  end.

(** Decimal integers with an optional sign. *)
Definition parse_Z (s : string) : option Z :=
  match s with
  | EmptyString => None
  | String "-" (String c s') => Z.opp <$> digits (String c s') 0
  | String "+" (String c s') => digits (String c s') 0
  | _ => digits s 0
  end.

Definition ParseInt (s : string) : option Z :=
  z ← parse_Z s; if in_int64 z then Some z else None.

(** Only integer literals are read as floats here. *)
Definition ParseFloat (s : string) : option float64 :=
  f64_of_Z <$> parse_Z s.

(** Deep equality in the manner of [cmp.Equal]: equal dynamic types and
    equal contents, floats by [==], objects key by key. *)
Fixpoint Equal (a b : value) : bool :=
  match a, b with
  | VNil, VNil | VDelete, VDelete | VNothing, VNothing => true
  | VString x, VString y | VBytes x, VBytes y
  | VJsonNumber x, VJsonNumber y | VRawMessage x, VRawMessage y
  | VOther x, VOther y => String.eqb x y
  | VInt x, VInt y | VInt32 x, VInt32 y | VInt64 x, VInt64 y
  | VUint x, VUint y | VUint32 x, VUint32 y | VUint64 x, VUint64 y
  | VTime x, VTime y => (x =? y)%Z
  | VFloat32 x, VFloat32 y | VFloat64 x, VFloat64 y => f64_eqb x y
  | VBool x, VBool y => Bool.eqb x y
  | VArray l, VArray l' =>
      (fix all2 (l l' : list value) : bool :=
         match l, l' with
         | [], [] => true
         | x :: l, y :: l' => Equal x y && all2 l l'
         | _, _ => false
         end) l l'
  | VObject m, VObject m' =>
      (length m =? length m') &&
      (fix every (m : list (string * value)) : bool :=
         match m with
         | [] => true
         | (k, v) :: m =>
             (fix find (m' : list (string * value)) : bool :=
                match m' with
                | [] => false
                | (k', v') :: m' =>
                    if String.eqb k k' then Equal v v' else find m'
                end) m' && every m
         end) m
  | _, _ => false
  end.

Definition show (v : value) : string :=
  match v with
  | VInt z | VInt32 z | VInt64 z | VUint z | VUint32 z | VUint64 z => pretty z
  | VBool b => if b then "true" else "false"
  | VString s | VBytes s | VJsonNumber s | VRawMessage s => s
  | _ => "null"
  end.

(** Integer-only JSON numbers, the conversions of amd64, plain printing. *)
Definition env : GoEnv := {|
  json_Number_Int64 := ParseInt;
  json_Number_Float64 := ParseFloat;
  time_Format_RFC3339Nano := fun t => pretty t;
  cmp_Equal := Equal;
  int64_of_unrepresentable := fun _ => int64_min;
  fmt_Sprintf_v := show;
  gabs_String := show;
  json_Marshal := show;
|}.

Definition ctx0 : FunctionContext :=
  {| Index := 0; MsgBatch := []; Vars := ∅; Value := None |}.

(** A one-part batch and the "delete root" mapping of the executor's
    tests. *)
Definition part0 : Part :=
  {| part_bytes := "[true]";
     part_structured := Some (VArray [VBool true]);
     part_metadata := ∅ |}.

Definition delete_root_statement : Mapping.Statement :=
  {| Mapping.line := 0;
     Mapping.target := Mapping.TargetJSON None;
     Mapping.query := NewLiteralFunction VDelete |}.


End Example.

(** ** Notions used to state the properties *)

Module Notions.
Import Query.

(** The truth value the language gives to booleans and to Go's numeric
    types: a number is true when it is not zero. *)
Definition truth_value (v : value) : option bool :=
  match v with
  | VBool b => Some b
  | VInt i | VInt64 i | VUint64 i => Some (negb (i =? 0)%Z)
  | VFloat64 f => Some (negb (f64_is_zero f))
  | _ => None
  end.

Definition not_boolean (v : value) : bool :=
  match ITypeOf v with
  | ValueString | ValueBytes | ValueArray | ValueObject | ValueNull => true
  | _ => false
  end.

Definition is_comparison (op : ArithmeticOperator) : bool :=
  match op with
  | ArithmeticEq | ArithmeticNeq | ArithmeticGt | ArithmeticGte
  | ArithmeticLt | ArithmeticLte => true
  | _ => false
  end.

(** [op] is resolved by [arithmeticFunc] with [f], in the product, sum or
    comparison pass. *)
Definition resolved_by (env : GoEnv) (op : ArithmeticOperator)
    (f : arithmeticOpFunc) : Prop :=
  prodOp env op = Some f \/ sumOp env op = Some f \/ compareOp env op = Some f.

(** What a chain of registrations does to an argument slice of the same
    length, written by recursion on both: extract each argument in turn,
    store it through its pointer, stop at the first failure. *)
Fixpoint extract_from (env : GoEnv) (decls : list Bloblang.argdecl)
    (args : list value) (i : nat) (st : gmap positive value)
  : gmap positive value * option error :=
  match decls, args with
  | [], _ => (st, None)
  | d :: decls', arg :: args' =>
      match Bloblang.extraction env d arg with
      | Err err => (st, Some (EBadArgument i err))
      | Ok v => extract_from env decls' args' (S i) (<[Bloblang.decl_ptr d := v]> st)
      end
  | _ :: _, [] => (st, Some EIndexOutOfRange)
  end.

(** The validator a declaration registers at position [index]. *)
Definition decl_validator (env : GoEnv) (d : Bloblang.argdecl) (index : nat)
  : Bloblang.validator :=
  fun args st =>
    match args !! index with
    | None => (st, Some EIndexOutOfRange)
    | Some arg =>
        match Bloblang.extraction env d arg with
        | Err err => (st, Some (EBadArgument index err))
        | Ok v => (<[Bloblang.decl_ptr d := v]> st, None)
        end
    end.


(** Proof steps: unfolding the passes on a short sequence, and naming the
    operator behind a folding error. *)
Ltac one_step_passes :=
  repeat (unfold firstPass, secondPass, thirdPass, keep, foldLast; simpl).

Ltac folding_witness a b Hf :=
  let try_op op := (exists op, a, b; split; [reflexivity|exact Hf]) in
  first [ try_op ArithmeticMul | try_op ArithmeticDiv | try_op ArithmeticMod
        | try_op ArithmeticAdd | try_op ArithmeticSub | try_op ArithmeticEq
        | try_op ArithmeticNeq | try_op ArithmeticGt | try_op ArithmeticGte
        | try_op ArithmeticLt | try_op ArithmeticLte ].

End Notions.

(** ** type_helpers.go: byte extraction, parsing conversions, cloning *)

Module TypeHelpers.
Import Query.

(** [maxUint = ^uint64(0)] and [maxInt = uint64(maxUint >> 1)]. *)
Definition maxUint : Z := (2 ^ 64 - 1)%Z.
Definition maxInt : Z := Z.shiftr maxUint 1.

Definition IGetBytes (v : value) : result string :=
  match v with
  | VString t => Ok t
  | VBytes t => Ok t
  | _ => Err (NewTypeError v [ValueBytes])
  end.

Section Conversions.
Context (env : GoEnv).

(** [strconv.ParseBool], taken from outside like the other parsers. *)
Context (strconv_ParseBool : string -> option bool).

(** [strconv.ParseFloat(s, 64)] and [strconv.ParseInt(s, 10, 64)] are the
    very calls [json.Number]'s [Float64] and [Int64] make on their text. *)
Definition strconv_ParseFloat (s : string) : result float64 :=
  Number_Float64 env s.

Definition strconv_ParseInt (s : string) : result Z :=
  Number_Int64 env s.

Definition IToNumber (v : value) : result float64 :=
  match v with
  | VInt t => Ok (f64_of_Z t)
  | VInt64 t => Ok (f64_of_Z t)
  | VUint64 t => Ok (f64_of_Z t)
  | VFloat64 t => Ok t
  | VJsonNumber t => Number_Float64 env t
  | VBytes t => strconv_ParseFloat t
  | VString t => strconv_ParseFloat t
  | _ => Err (NewTypeError v [ValueNumber])
  end.

Definition IToInt (v : value) : result Z :=
  match v with
  | VInt t => Ok t
  | VInt64 t => Ok t
  | VUint64 t =>
      if (maxInt <? t)%Z
      then Err (EOther
             "unsigned integer value is too large to be cast as a signed integer")
      else Ok (wrap64 t)
  | VFloat64 t => Ok (int64_of_f64 env t)
  | VJsonNumber t => Number_Int64 env t
  | VBytes t => strconv_ParseInt t
  | VString t => strconv_ParseInt t
  | _ => Err (NewTypeError v [ValueNumber])
  end.

(** A string or byte slice that does not parse falls out of the switch to
    the type error. *)
Definition IToBool (v : value) : result bool :=
  match v with
  | VBool t => Ok t
  | VInt t => Ok (negb (t =? 0)%Z)
  | VInt64 t => Ok (negb (t =? 0)%Z)
  | VUint64 t => Ok (negb (t =? 0)%Z)
  | VFloat64 t => Ok (negb (f64_is_zero t))
  | VJsonNumber t => Ok (negb (String.eqb t "0"))
  | VBytes t | VString t =>
      match strconv_ParseBool t with
      | Some b => Ok b
      | None => Err (NewTypeError v [ValueBool])
      end
  | _ => Err (NewTypeError v [ValueBool])
  end.

End Conversions.


(** The types [ISanitize] documents as its results, besides [nil]. *)
Definition sanitized (v : value) : bool :=
  match v with
  | VString _ | VBytes _ | VInt64 _ | VUint64 _ | VFloat64 _ | VBool _
  | VArray _ | VObject _ | VDelete | VNothing | VNil => true
  | _ => false
  end.

End TypeHelpers.

(** ** Further notions used to state properties *)

Module MoreNotions.
Import Query.

(** The int64 that [IGetInt] reads from a value of type int, int64 or
    uint64. *)
Definition go_int (v : value) : option Z :=
  match v with
  | VInt i | VInt64 i => Some i
  | VUint64 u => Some (wrap64 u)
  | _ => None
  end.

Definition is_ordering (op : ArithmeticOperator) : bool :=
  match op with
  | ArithmeticGt | ArithmeticGte | ArithmeticLt | ArithmeticLte => true
  | _ => false
  end.

(** The left operands the ordering comparisons are defined on: those
    compared as strings or as floats. *)
Definition orderable (env : GoEnv) (left : value) : bool :=
  match restrictForComparison env left with
  | VString _ | VFloat64 _ => true
  | _ => false
  end.

(** The values that are numbers once sanitized. *)
Definition sanitized_number (env : GoEnv) (v : value) : bool :=
  match ISanitize env v with
  | VInt64 _ | VUint64 _ | VFloat64 _ => true
  | _ => false
  end.

(** The integer an int, int64 or uint64 value holds, as a mathematical
    integer (a uint64 is not wrapped). *)
Definition integer_value (v : value) : option Z :=
  match v with
  | VInt i | VInt64 i | VUint64 i => Some i
  | _ => None
  end.

Definition is_literal (f : Function) : bool :=
  match f with Literal _ => true | _ => false end.

End MoreNotions.

(** ** internal/codec/writer.go *)

Module Codec.
Import Query.

(** [io.WriteCloser]: a handle with its state; a call returns the handle
    after the call and the error, if any. *)
Class WriteCloser (W : Type) := {
  io_Write : W -> string -> W * option error;
  io_Close : W -> W * option error
}.

Record WriterConfig := mkWriterConfig {
  Append : bool;
  Truncate : bool;
  CloseAfter : bool
}.

Definition zeroWriterConfig : WriterConfig := mkWriterConfig false false false.
Definition allBytesConfig : WriterConfig := mkWriterConfig false true true.
Definition linesWriterConfig : WriterConfig := mkWriterConfig true false false.
Definition customDelimConfig : WriterConfig := mkWriterConfig true false false.

Definition newline : string := String (ascii_of_nat 10) EmptyString.

(** [strings.HasPrefix] and [strings.TrimPrefix]. *)
Definition strings_HasPrefix (s prefix : string) : bool := String.prefix prefix s.

Definition strings_TrimPrefix (s prefix : string) : string :=
  if strings_HasPrefix s prefix
  then substring (String.length prefix) (String.length s - String.length prefix) s
  else s.

(** The three implementations of the [Writer] interface. *)
Inductive Writer (W : Type) :=
| allBytesWriter (o : W)
| linesWriter (w : W)
| customDelimWriter (w : W) (delim : string).
Arguments allBytesWriter {W} o.
Arguments linesWriter {W} w.
Arguments customDelimWriter {W} w delim.

Definition WriterConstructor (W : Type) : Type := W -> result (Writer W).

Definition newLinesWriter {W} : WriterConstructor W :=
  fun w => Ok (linesWriter w).

Definition newCustomDelimWriter {W} (w : W) (delim : string)
  : result (Writer W) :=
  Ok (customDelimWriter w delim).

Definition GetWriter {W} (codec : string)
  : result (WriterConstructor W * WriterConfig) :=
  if String.eqb codec "all-bytes" then
    Ok (fun w => Ok (allBytesWriter w), allBytesConfig)
  else if String.eqb codec "append" then
    Ok (fun w => newCustomDelimWriter w EmptyString, customDelimConfig)
  else if String.eqb codec "lines" then
    Ok (newLinesWriter, linesWriterConfig)
  else if strings_HasPrefix codec "delim:" then
    let by_ := strings_TrimPrefix codec "delim:" in
    if (String.length by_ =? 0)%nat then
      Err (EOther "custom delimiter codec requires a non-empty delimiter")
    else Ok (fun w => newCustomDelimWriter w by_, customDelimConfig)
  else Err (EOther (String.append "codec was not recognised: " codec)).

Section Writers.
Context {W : Type} `{WriteCloser W}.

(** A part is written as its bytes, [msg.Get()]. *)
Definition Write (wr : Writer W) (p : string) : Writer W * option error :=
  match wr with
  | allBytesWriter o =>
      let '(o, err) := io_Write o p in (allBytesWriter o, err)
  | linesWriter w =>
      let '(w, err) := io_Write w p in
      match err with
      | Some err => (linesWriter w, Some err)
      | None => let '(w, err) := io_Write w newline in (linesWriter w, err)
      end
  | customDelimWriter w delim =>
      let '(w, err) := io_Write w p in
      match err with
      | Some err => (customDelimWriter w delim, Some err)
      | None =>
          let '(w, err) := io_Write w delim in (customDelimWriter w delim, err)
      end
  end.

Definition EndBatch (wr : Writer W) : Writer W * option error :=
  match wr with
  | allBytesWriter o => (allBytesWriter o, None)
  | linesWriter w =>
      let '(w, err) := io_Write w newline in (linesWriter w, err)
  | customDelimWriter w delim =>
      let '(w, err) := io_Write w delim in (customDelimWriter w delim, err)
  end.

Definition Close (wr : Writer W) : Writer W * option error :=
  match wr with
  | allBytesWriter o => let '(o, err) := io_Close o in (allBytesWriter o, err)
  | linesWriter w => let '(w, err) := io_Close w in (linesWriter w, err)
  | customDelimWriter w delim =>
      let '(w, err) := io_Close w in (customDelimWriter w delim, err)
  end.

(** *** Notions used to state properties of the writers *)

(** The handle a writer holds. *)
Definition handle (wr : Writer W) : W :=
  match wr with
  | allBytesWriter o => o
  | linesWriter w => w
  | customDelimWriter w _ => w
  end.

(** A call of one of the three methods of the interface. *)
Inductive call :=
| CallWrite (p : string)
| CallEndBatch
| CallClose.

Definition do_call (wr : Writer W) (c : call) : Writer W * option error :=
  match c with
  | CallWrite p => Write wr p
  | CallEndBatch => EndBatch wr
  | CallClose => Close wr
  end.

(** A sequence of calls, each on the writer the previous one left, with the
    errors they returned. *)
Fixpoint do_calls (wr : Writer W) (cs : list call)
  : Writer W * list (option error) :=
  match cs with
  | [] => (wr, [])
  | c :: cs =>
      let '(wr, err) := do_call wr c in
      let '(wr, errs) := do_calls wr cs in
      (wr, err :: errs)
  end.

(** Every part of a batch written in turn, stopping at the first error. *)
Fixpoint write_parts (wr : Writer W) (ps : list string)
  : Writer W * option error :=
  match ps with
  | [] => (wr, None)
  | p :: ps =>
      let '(wr, err) := Write wr p in
      match err with
      | Some err => (wr, Some err)
      | None => write_parts wr ps
      end
  end.

End Writers.

(** The texts of a list, one after the other. *)
Definition flatten (l : list string) : string :=
  fold_right String.append EmptyString l.

(** A handle that keeps what is written to it and never fails. *)
#[export] Instance buffer_WriteCloser : WriteCloser string := {
  io_Write := fun w b => (String.append w b, None);
  io_Close := fun w => (w, None)
}.

(** lib/output/file.go, [NewFile]: a delimiter in the configuration
    overrides its codec. *)
Definition NewFile_Codec (Codec Delim : string) : string :=
  if (0 <? String.length Delim)%nat then String.append "delim:" Delim else Codec.

End Codec.

(** ** internal/service/manager.go *)

Module Manager.

Inductive error (E : Type) :=
| ErrPipeNotFound
| ErrResourceNotFound (name : string)
| ErrInput (e : E).
Arguments ErrPipeNotFound {E}.
Arguments ErrResourceNotFound {E} name.
Arguments ErrInput {E} e.

Section Manager.
(** Inputs, their configurations and errors are taken as they come; a
    channel is known by its identity. *)
Context {Input Config E : Type}.
Context (input_New : Config -> Input + E).

Definition Chan : Type := positive.

(** The maps of the manager the functions below use, and the inputs that
    have been closed, in the order of their closing. *)
Record Manager := mkManager {
  inputs : gmap string Input;
  pipes : gmap string Chan;
  closed : list Input
}.

Definition NewManager : Manager := mkManager ∅ ∅ [].

Definition GetPipe (t : Manager) (name : string) : Chan + error E :=
  match pipes t !! name with
  | Some pipe => inl pipe
  | None => inr ErrPipeNotFound
  end.

Definition SetPipe (t : Manager) (name : string) (tran : Chan) : Manager :=
  mkManager (inputs t) (<[name := tran]> (pipes t)) (closed t).

Definition UnsetPipe (t : Manager) (name : string) (tran : Chan) : Manager :=
  match pipes t !! name with
  | Some otran =>
      if decide (otran = tran)
      then mkManager (inputs t) (delete name (pipes t)) (closed t)
      else t
  | None => t
  end.

(** The closure is run on a state of its own. *)
Definition AccessInput {S : Type} (t : Manager) (name : string)
    (fn : Input -> S -> S) (s : S) : S * option (error E) :=
  match inputs t !! name with
  | None => (s, Some (ErrResourceNotFound name))
  | Some i => (fn i s, None)
  end.

(** The label is not used: [input.New(conf, nil, t.logger, t.stats)]. *)
Definition NewInput (label : string) (conf : Config) : Input + E :=
  input_New conf.

Definition StoreInput (t : Manager) (name : string) (conf : Config)
  : Manager * option (error E) :=
  match NewInput (String.append "resource." name) conf with
  | inr err => (t, Some (ErrInput err))
  | inl newInput =>
      let closed' :=
        match inputs t !! name with
        | Some i => closed t ++ [i]
        | None => closed t
        end in
      (mkManager (<[name := newInput]> (inputs t)) (pipes t) closed', None)
  end.

End Manager.
End Manager.
(** * Properties *)

(** ** Strict extractors and the operators built on them *)

Module QueryFacts.
Import Query Notions.

Lemma IGetBool_truth_value v b :
  truth_value v = Some b -> IGetBool v = Ok b.
Proof. destruct v; simpl; intros [= <-]; reflexivity. Qed.

Lemma IGetBool_not_boolean v :
  not_boolean v = true -> IGetBool v = Err (ETypeError (ITypeOf v) [ValueBool]).
Proof. destruct v; simpl; try discriminate; reflexivity. Qed.

Lemma boolAnd_Exec lhs rhs ctx lv rv bl br :
  Exec lhs ctx = Ok lv -> Exec rhs ctx = Ok rv ->
  IGetBool lv = Ok bl -> IGetBool rv = Ok br ->
  Exec (boolAnd lhs rhs) ctx = Ok (VBool (bl && br)).
Proof.
  intros Hl Hr Hbl Hbr. simpl. rewrite Hl. simpl. rewrite Hbl. simpl.
  destruct bl; simpl; [|reflexivity].
  rewrite Hr. simpl. rewrite Hbr. reflexivity.
Qed.

Lemma boolOr_Exec lhs rhs ctx lv rv bl br :
  Exec lhs ctx = Ok lv -> Exec rhs ctx = Ok rv ->
  IGetBool lv = Ok bl -> IGetBool rv = Ok br ->
  Exec (boolOr lhs rhs) ctx = Ok (VBool (bl || br)).
Proof.
  intros Hl Hr Hbl Hbr. simpl. rewrite Hl. simpl. rewrite Hbl. simpl.
  destruct bl; simpl; [reflexivity|].
  rewrite Hr. simpl. rewrite Hbr. reflexivity.
Qed.

(** C9.  [IGetBool] returns a bool as it is and a number of type int, int64,
    uint64 or float64 as "is not zero", without error; it answers strings,
    bytes, arrays, objects and null with a type error expecting a bool.
    Hence [&&] and [||] accept numeric operands and read non-zero as true. *)
Theorem IGetBool_strict :
  (forall v b, truth_value v = Some b -> IGetBool v = Ok b) /\
  (forall v, not_boolean v = true ->
     IGetBool v = Err (ETypeError (ITypeOf v) [ValueBool])) /\
  (forall lhs rhs ctx lv rv bl br,
     Exec lhs ctx = Ok lv -> Exec rhs ctx = Ok rv ->
     truth_value lv = Some bl -> truth_value rv = Some br ->
     Exec (boolAnd lhs rhs) ctx = Ok (VBool (bl && br)) /\
     Exec (boolOr lhs rhs) ctx = Ok (VBool (bl || br))).
Proof.
  split; [exact IGetBool_truth_value|].
  split; [exact IGetBool_not_boolean|].
  intros lhs rhs ctx lv rv bl br Hl Hr Hbl Hbr.
  apply IGetBool_truth_value in Hbl, Hbr.
  split; [eapply boolAnd_Exec|eapply boolOr_Exec]; eassumption.
Qed.

Lemma IGetBool_strict_witness :
  IGetBool (VInt64 3) = Ok true /\
  IGetBool (VString "true") = Err (ETypeError ValueString [ValueBool]) /\
  Exec (boolAnd (Literal (VInt64 3)) (Literal (VFloat64 f64_zero)))
    Example.ctx0 = Ok (VBool false) /\
  Exec (boolOr (Literal (VUint64 0)) (Literal (VInt 7)))
    Example.ctx0 = Ok (VBool true).
Proof.
  destruct IGetBool_strict as (Hnum & Hrej & Hops).
  split; [apply (Hnum (VInt64 3)); reflexivity|].
  split; [apply (Hrej (VString "true")); reflexivity|].
  split.
  - apply (Hops (Literal (VInt64 3)) (Literal (VFloat64 f64_zero))
             Example.ctx0 (VInt64 3) (VFloat64 f64_zero) true false);
      reflexivity.
  - apply (Hops (Literal (VUint64 0)) (Literal (VInt 7))
             Example.ctx0 (VUint64 0) (VInt 7) false true);
      reflexivity.
Defined.

Section Facts.
Context (env : GoEnv).

(** *** Truncation *)






End Facts.


End QueryFacts.

(** ** Operators of the arithmetic resolver *)

Module ArithmeticFacts.
Import Query Notions.

Section Facts.
Context (env : GoEnv).

Lemma IGetNumber_error v e :
  IGetNumber env v = Err e -> e <> ErrDivideByZero.
Proof.
  destruct v; simpl; unfold Number_Float64;
    try destruct (json_Number_Float64 env _); intros [= <-]; discriminate.
Qed.

Lemma IGetInt_error v e :
  IGetInt env v = Err e -> e <> ErrDivideByZero.
Proof.
  destruct v; simpl; unfold Number_Int64, Number_Float64;
    try destruct (json_Number_Int64 env _);
    try destruct (json_Number_Float64 env _); intros [= <-]; discriminate.
Qed.

Lemma divOp_coerced l r a b :
  IGetNumber env l = Ok a -> IGetNumber env r = Ok b ->
  divOp env l r
  = if f64_is_zero b then Err ErrDivideByZero else Ok (VFloat64 (f64_div a b)).
Proof. intros Ha Hb. unfold divOp. rewrite Ha. simpl. rewrite Hb. reflexivity. Qed.

Lemma modOp_coerced l r a b :
  IGetInt env l = Ok a -> IGetInt env r = Ok b ->
  modOp env l r
  = if (b =? 0)%Z then Err ErrDivideByZero else Ok (VInt64 (Z.rem a b)).
Proof. intros Ha Hb. unfold modOp. rewrite Ha. simpl. rewrite Hb. reflexivity. Qed.

Lemma divOp_zero l r :
  divOp env l r = Err ErrDivideByZero
  <-> exists a b, IGetNumber env l = Ok a /\ IGetNumber env r = Ok b /\
                  f64_is_zero b = true.
Proof.
  split.
  - unfold divOp.
    destruct (IGetNumber env l) as [a|e] eqn:Ha; simpl.
    + destruct (IGetNumber env r) as [b|e] eqn:Hb; simpl.
      * destruct (f64_is_zero b) eqn:Hz; [|discriminate].
        intros _. exists a, b. auto.
      * intros [= ->]. exfalso. exact (IGetNumber_error _ _ Hb eq_refl).
    + intros [= ->]. exfalso. exact (IGetNumber_error _ _ Ha eq_refl).
  - intros (a & b & Ha & Hb & Hz).
    rewrite (divOp_coerced _ _ _ _ Ha Hb), Hz. reflexivity.
Qed.

Lemma modOp_zero l r :
  modOp env l r = Err ErrDivideByZero
  <-> exists a, IGetInt env l = Ok a /\ IGetInt env r = Ok 0%Z.
Proof.
  split.
  - unfold modOp.
    destruct (IGetInt env l) as [a|e] eqn:Ha; simpl.
    + destruct (IGetInt env r) as [b|e] eqn:Hb; simpl.
      * destruct (Z.eqb_spec b 0) as [->|]; [|discriminate].
        intros _. exists a. auto.
      * intros [= ->]. exfalso. exact (IGetInt_error _ _ Hb eq_refl).
    + intros [= ->]. exfalso. exact (IGetInt_error _ _ Ha eq_refl).
  - intros (a & Ha & Hb).
    rewrite (modOp_coerced _ _ _ _ Ha Hb). reflexivity.
Qed.

(** C6.  [/] coerces both operands to float64 and divides them, [%] coerces
    both to int64 and takes the remainder; each fails with
    [ErrDivideByZero] exactly when both operands coerce and the coerced
    right operand is zero, so never for a divisor that is not zero. *)
Theorem div_mod_by_zero :
  (forall l r a b,
     IGetNumber env l = Ok a -> IGetNumber env r = Ok b ->
     divOp env l r
     = if f64_is_zero b then Err ErrDivideByZero
       else Ok (VFloat64 (f64_div a b))) /\
  (forall l r,
     divOp env l r = Err ErrDivideByZero
     <-> exists a b, IGetNumber env l = Ok a /\ IGetNumber env r = Ok b /\
                     f64_is_zero b = true) /\
  (forall l r a b,
     IGetInt env l = Ok a -> IGetInt env r = Ok b ->
     modOp env l r
     = if (b =? 0)%Z then Err ErrDivideByZero else Ok (VInt64 (Z.rem a b))) /\
  (forall l r,
     modOp env l r = Err ErrDivideByZero
     <-> exists a, IGetInt env l = Ok a /\ IGetInt env r = Ok 0%Z) /\
  prodOp env ArithmeticDiv = Some (divOp env) /\
  prodOp env ArithmeticMod = Some (modOp env).
Proof.
  split; [exact divOp_coerced|].
  split; [exact divOp_zero|].
  split; [exact modOp_coerced|].
  split; [exact modOp_zero|].
  split; reflexivity.
Qed.

(** *** Coalesce *)

Lemma coalesce_Exec lhs rhs ctx :
  Exec (coalesce lhs rhs) ctx
  = match Exec lhs ctx with
    | Ok v => if IIsNull v then Exec rhs ctx else Ok v
    | Err _ => Exec rhs ctx
    end.
Proof.
  simpl. destruct (Exec lhs ctx) as [v|e]; [|reflexivity].
  destruct (IIsNull v); reflexivity.
Qed.

Lemma IIsNull_spec v :
  IIsNull v = true <-> v = VNil \/ v = VDelete \/ v = VNothing.
Proof.
  split.
  - destruct v; simpl; try discriminate; auto.
  - intros [->|[->| ->]]; reflexivity.
Qed.

(** C5.  [lhs | rhs] returns the value of [lhs] exactly when [lhs] evaluated
    without error to a value that is not null, [Delete] or [Nothing]; when
    [lhs] fails, or yields null, [Delete] or [Nothing], it returns whatever
    [rhs] evaluates to. *)
Theorem coalesce_spec lhs rhs ctx :
  (forall v, Exec lhs ctx = Ok v ->
     v <> VNil -> v <> VDelete -> v <> VNothing ->
     Exec (coalesce lhs rhs) ctx = Ok v) /\
  (forall v, Exec lhs ctx = Ok v ->
     v = VNil \/ v = VDelete \/ v = VNothing ->
     Exec (coalesce lhs rhs) ctx = Exec rhs ctx) /\
  (forall e, Exec lhs ctx = Err e ->
     Exec (coalesce lhs rhs) ctx = Exec rhs ctx).
Proof.
  rewrite coalesce_Exec. repeat split.
  - intros v -> Hn Hd Ht.
    destruct (IIsNull v) eqn:Hnull; [|reflexivity].
    apply IIsNull_spec in Hnull. tauto.
  - intros v -> Hv. apply IIsNull_spec in Hv. rewrite Hv. reflexivity.
  - intros e ->. reflexivity.
Qed.

(** *** String concatenation *)

Lemma IGetString_error v :
  ITypeOf v <> ValueString -> ITypeOf v <> ValueBytes ->
  IGetString v = Err (ETypeError (ITypeOf v) [ValueString]).
Proof. destruct v; simpl; intros H1 H2; try reflexivity; congruence. Qed.

Lemma addOp_string left right l :
  IGetString left = Ok l ->
  addOp env left right
  = match IGetString right with
    | Ok r => Ok (VString (l ++ r))
    | Err err => Err err
    end.
Proof.
  destruct left; simpl; try discriminate; intros [= ->];
    destruct (IGetString right); reflexivity.
Qed.

(** C3, amended.  When the left operand of [+] is a string or bytes, the
    result is its concatenation with the right operand if that is a string
    or bytes too; any other right operand, a number included, is answered
    with a type error expecting a string. *)
Theorem add_string_concat left right l :
  IGetString left = Ok l ->
  (forall r, IGetString right = Ok r ->
     addOp env left right = Ok (VString (l ++ r))) /\
  (ITypeOf right <> ValueString -> ITypeOf right <> ValueBytes ->
     addOp env left right = Err (ETypeError (ITypeOf right) [ValueString])) /\
  sumOp env ArithmeticAdd = Some (addOp env).
Proof.
  intros Hl. rewrite (addOp_string _ right _ Hl). repeat split.
  - intros r ->. reflexivity.
  - intros H1 H2. rewrite (IGetString_error _ H1 H2). reflexivity.
Qed.

(** *** Comparison against a right operand of another type *)

Lemma compareFn_string op left right lhs err :
  is_comparison op = true ->
  restrictForComparison env left = VString lhs ->
  IGetString right = Err err ->
  compareFn env op left right
  = if is_ArithmeticNeq op then Ok (VBool true) else Err err.
Proof.
  intros Hop Hl Hr. unfold compareFn. rewrite Hl, Hr.
  destruct op; try discriminate; reflexivity.
Qed.

Lemma compareFn_float op left right lhs err :
  is_comparison op = true ->
  restrictForComparison env left = VFloat64 lhs ->
  IGetNumber env right = Err err ->
  compareFn env op left right
  = if is_ArithmeticNeq op then Ok (VBool true) else Err err.
Proof.
  intros Hop Hl Hr. unfold compareFn. rewrite Hl, Hr.
  destruct op; try discriminate; reflexivity.
Qed.

Lemma compareFn_bool op left right lhs err :
  is_comparison op = true ->
  restrictForComparison env left = VBool lhs ->
  IGetBool right = Err err ->
  compareFn env op left right
  = match op with
    | ArithmeticNeq => Ok (VBool true)
    | ArithmeticEq => Err err
    | _ => Err (NewTypeError left [])
    end.
Proof.
  intros Hop Hl Hr. unfold compareFn. rewrite Hl, Hr.
  destruct op; try discriminate; reflexivity.
Qed.

(** C4, amended.  When the right operand does not coerce to the comparison
    type of the left one: for a string or float left operand [!=] is true
    and every other comparison propagates the coercion error; for a bool
    left operand [!=] is true, [==] propagates the coercion error, and the
    ordering comparisons are refused with a type error on the left
    operand.  So "foo" != 5 is true and "foo" > 5 is a type error. *)
Theorem compare_mismatch op left right :
  is_comparison op = true ->
  (forall lhs err,
     restrictForComparison env left = VString lhs ->
     IGetString right = Err err ->
     compareFn env op left right
     = if is_ArithmeticNeq op then Ok (VBool true) else Err err) /\
  (forall lhs err,
     restrictForComparison env left = VFloat64 lhs ->
     IGetNumber env right = Err err ->
     compareFn env op left right
     = if is_ArithmeticNeq op then Ok (VBool true) else Err err) /\
  (forall lhs err,
     restrictForComparison env left = VBool lhs ->
     IGetBool right = Err err ->
     compareFn env op left right
     = match op with
       | ArithmeticNeq => Ok (VBool true)
       | ArithmeticEq => Err err
       | _ => Err (ETypeError (ITypeOf left) [])
       end) /\
  compareOp env op = Some (compareFn env op) /\
  compareFn env ArithmeticNeq (VString "foo") (VInt64 5) = Ok (VBool true) /\
  compareFn env ArithmeticGt (VString "foo") (VInt64 5)
  = Err (ETypeError ValueNumber [ValueString]).
Proof.
  intros Hop.
  split; [intros; eapply compareFn_string; eassumption|].
  split; [intros; eapply compareFn_float; eassumption|].
  split; [intros; eapply compareFn_bool; eassumption|].
  split; [destruct op; try discriminate; reflexivity|].
  split; reflexivity.
Qed.

(** *** Constant folding *)

Lemma arithmeticFunc_literals a b f :
  arithmeticFunc (Literal a) (Literal b) f
  = match f a b with
    | Ok v => Ok (Literal v)
    | Err e => Err e
    end.
Proof. simpl. destruct (f a b); reflexivity. Qed.

Lemma arithmeticClosure_Exec lhs rhs f ctx :
  Exec (arithmeticClosure lhs rhs f) ctx
  = (leftV ← Exec lhs ctx; rightV ← Exec rhs ctx; f leftV rightV).
Proof.
  simpl. destruct (Exec lhs ctx); simpl; [|reflexivity].
  destruct (Exec rhs ctx); reflexivity.
Qed.

Lemma NewArithmeticExpression_prod l r op f :
  prodOp env op = Some f ->
  NewArithmeticExpression env [l; r] [op] = arithmeticFunc l r f.
Proof.
  intros H. unfold NewArithmeticExpression, runPass. simpl.
  unfold firstPass. rewrite H. unfold foldLast. simpl.
  destruct (arithmeticFunc l r f); reflexivity.
Qed.

Lemma NewArithmeticExpression_sum l r op f :
  sumOp env op = Some f ->
  NewArithmeticExpression env [l; r] [op] = arithmeticFunc l r f.
Proof.
  intros H. unfold NewArithmeticExpression, runPass. simpl.
  destruct op; try discriminate; simpl in H; injection H as <-;
    one_step_passes;
    match goal with |- context [arithmeticFunc l r ?g] =>
      destruct (arithmeticFunc l r g); reflexivity end.
Qed.

Lemma NewArithmeticExpression_compare l r op f :
  compareOp env op = Some f ->
  NewArithmeticExpression env [l; r] [op] = arithmeticFunc l r f.
Proof.
  intros H. unfold NewArithmeticExpression, runPass. simpl.
  destruct op; try discriminate; simpl in H; injection H as <-;
    one_step_passes;
    match goal with |- context [arithmeticFunc l r ?g] =>
      destruct (arithmeticFunc l r g); reflexivity end.
Qed.

Lemma NewArithmeticExpression_resolved l r op f :
  resolved_by env op f ->
  NewArithmeticExpression env [l; r] [op] = arithmeticFunc l r f.
Proof.
  intros [H|[H|H]];
    eauto using NewArithmeticExpression_prod, NewArithmeticExpression_sum,
      NewArithmeticExpression_compare.
Qed.

(** C7.  For an operator resolved in the product, sum or comparison pass and
    two literal children, the builder applies the operator at build time: a
    successful result becomes a literal whose value is, in every context,
    what the closure it stands for returns, and a failure is returned by
    [NewArithmeticExpression] itself. *)
Theorem constant_folding op f a b :
  resolved_by env op f ->
  arithmeticFunc (Literal a) (Literal b) f
  = match f a b with Ok v => Ok (Literal v) | Err e => Err e end /\
  (forall ctx,
     Exec (arithmeticClosure (Literal a) (Literal b) f) ctx = f a b) /\
  (forall v, f a b = Ok v ->
     NewArithmeticExpression env [Literal a; Literal b] [op] = Ok (Literal v) /\
     forall ctx,
       Exec (Literal v) ctx
       = Exec (arithmeticClosure (Literal a) (Literal b) f) ctx) /\
  (forall e, f a b = Err e ->
     NewArithmeticExpression env [Literal a; Literal b] [op] = Err e).
Proof.
  intros Hop. rewrite (NewArithmeticExpression_resolved _ _ _ _ Hop).
  rewrite arithmeticFunc_literals.
  split; [reflexivity|].
  split; [intros ctx; apply arithmeticClosure_Exec|].
  split.
  - intros v Hv. rewrite Hv. split; [reflexivity|].
    intros ctx. rewrite arithmeticClosure_Exec. simpl. symmetry. exact Hv.
  - intros e He. rewrite He. reflexivity.
Qed.

End Facts.

Lemma div_mod_by_zero_witness :
  divOp Example.env (VInt64 1) (VFloat64 (S754_zero true))
  = Err ErrDivideByZero /\
  modOp Example.env (VInt64 7) (VJsonNumber "0") = Err ErrDivideByZero /\
  modOp Example.env (VInt64 (-7)) (VInt64 2) = Ok (VInt64 (-1)).
Proof.
  destruct (div_mod_by_zero Example.env) as (_ & Hdiv & Hmod & Hmz & _).
  split.
  - apply (Hdiv (VInt64 1) (VFloat64 (S754_zero true))).
    exists (f64_of_Z 1), (S754_zero true). repeat split; reflexivity.
  - split.
    + apply (Hmz (VInt64 7) (VJsonNumber "0")). exists 7%Z.
      split; reflexivity.
    + rewrite (Hmod (VInt64 (-7)) (VInt64 2) (-7)%Z 2%Z); reflexivity.
Defined.

Lemma coalesce_spec_witness :
  Exec (coalesce (Literal VDelete) (Literal (VString "x"))) Example.ctx0
  = Ok (VString "x") /\
  Exec (coalesce (Literal (VInt64 0)) (Literal (VString "x"))) Example.ctx0
  = Ok (VInt64 0).
Proof.
  split.
  - apply (proj1 (proj2 (coalesce_spec (Literal VDelete)
             (Literal (VString "x")) Example.ctx0)) VDelete); auto.
  - apply (proj1 (coalesce_spec (Literal (VInt64 0))
             (Literal (VString "x")) Example.ctx0) (VInt64 0));
      [reflexivity|discriminate..].
Defined.

(** "foo" + 5 is a type error, not "foo5". *)
Lemma add_string_number_refused :
  addOp Example.env (VString "foo") (VInt64 5)
  = Err (ETypeError ValueNumber [ValueString]) /\
  addOp Example.env (VString "foo") (VInt64 5)
  <> Ok (VString ("foo" ++ IToString Example.env (VInt64 5))).
Proof. split; [reflexivity|discriminate]. Qed.

Lemma add_string_concat_witness :
  addOp Example.env (VString "foo") (VBytes "bar") = Ok (VString "foobar") /\
  addOp Example.env (VBytes "foo") VNil
  = Err (ETypeError ValueNull [ValueString]).
Proof.
  split.
  - apply (proj1 (add_string_concat Example.env (VString "foo")
             (VBytes "bar") "foo" eq_refl) "bar"). reflexivity.
  - apply (proj1 (proj2 (add_string_concat Example.env (VBytes "foo")
             VNil "foo" eq_refl))); discriminate.
Defined.

(** [true > "x"]: the right operand does not coerce to bool, yet the error
    returned is the type error on the left operand. *)
Lemma compare_bool_ordering_refused :
  restrictForComparison Example.env (VBool true) = VBool true /\
  IGetBool (VString "x") = Err (ETypeError ValueString [ValueBool]) /\
  compareFn Example.env ArithmeticGt (VBool true) (VString "x")
  = Err (ETypeError ValueBool []) /\
  compareFn Example.env ArithmeticGt (VBool true) (VString "x")
  <> Err (ETypeError ValueString [ValueBool]).
Proof. repeat split; discriminate. Qed.

Lemma compare_mismatch_witness :
  compareFn Example.env ArithmeticLte (VBytes "foo") (VInt64 5)
  = Err (ETypeError ValueNumber [ValueString]) /\
  compareFn Example.env ArithmeticNeq (VInt 1) (VString "1")
  = Ok (VBool true) /\
  compareFn Example.env ArithmeticEq (VBool true) VNil
  = Err (ETypeError ValueNull [ValueBool]).
Proof.
  split.
  - apply (proj1 (compare_mismatch Example.env ArithmeticLte (VBytes "foo")
             (VInt64 5) eq_refl) "foo" (ETypeError ValueNumber [ValueString]));
      reflexivity.
  - split.
    + apply (proj1 (proj2 (compare_mismatch Example.env ArithmeticNeq
               (VInt 1) (VString "1") eq_refl)) (f64_of_Z 1)
               (ETypeError ValueString [ValueNumber])); reflexivity.
    + apply (proj1 (proj2 (proj2 (compare_mismatch Example.env ArithmeticEq
               (VBool true) VNil eq_refl))) true
               (ETypeError ValueNull [ValueBool])); reflexivity.
Defined.

Lemma constant_folding_witness :
  NewArithmeticExpression Example.env
    [Literal (VInt64 6); Literal (VInt64 7)] [ArithmeticMul]
  = Ok (Literal (VInt64 42)) /\
  NewArithmeticExpression Example.env
    [Literal (VInt64 6); Literal (VInt64 0)] [ArithmeticMod]
  = Err ErrDivideByZero.
Proof.
  split.
  - apply (proj1 (proj2 (proj2 (constant_folding Example.env ArithmeticMul
             (mulOp Example.env) (VInt64 6) (VInt64 7)
             (or_introl eq_refl))))). reflexivity.
  - apply (proj2 (proj2 (proj2 (constant_folding Example.env ArithmeticMod
             (modOp Example.env) (VInt64 6) (VInt64 0)
             (or_introl eq_refl))))). reflexivity.
Defined.

End ArithmeticFacts.

(** ** Argument specifications *)

Module ArgSpecFacts.
Import Query Notions Bloblang.

Section Facts.
Context (env : GoEnv).

Lemma declare_shape a d :
  n (declare env a d) = S (n a) /\
  validators (declare env a d) = validators a ++ [decl_validator env d (n a)].
Proof. destruct d; split; reflexivity. Qed.

Lemma build_shape decls : forall a,
  n (fold_left (declare env) decls a) = n a + length decls /\
  validators (fold_left (declare env) decls a)
  = validators a ++ imap (fun i d => decl_validator env d (n a + i)) decls.
Proof.
  induction decls as [|d decls IH]; intros a; simpl.
  - split; [lia|]. rewrite app_nil_r. reflexivity.
  - destruct (IH (declare env a d)) as [Hn Hv].
    destruct (declare_shape a d) as [Hn' Hv'].
    rewrite Hn, Hv, Hn', Hv'. split; [lia|].
    rewrite <- app_assoc. simpl. do 2 f_equal.
    + f_equal. lia.
    + apply imap_ext. intros i x _. simpl. f_equal. lia.
Qed.

Lemma build_n decls : n (build env decls) = length decls.
Proof. unfold build. rewrite (proj1 (build_shape decls NewArgSpec)). reflexivity. Qed.

Lemma build_validators decls :
  validators (build env decls) = imap (fun i d => decl_validator env d i) decls.
Proof. unfold build. rewrite (proj2 (build_shape decls NewArgSpec)). reflexivity. Qed.

Lemma run_validators_imap decls : forall k pre rest st,
  length pre = k ->
  run_validators (imap (fun i d => decl_validator env d (k + i)) decls)
    (pre ++ rest) st
  = extract_from env decls rest k st.
Proof.
  induction decls as [|d decls IH]; intros k pre rest st Hk; [reflexivity|].
  simpl. unfold decl_validator at 1.
  rewrite Nat.add_0_r, lookup_app_r by lia.
  replace (k - length pre) with 0 by lia.
  destruct rest as [|arg rest]; simpl; [reflexivity|].
  destruct (extraction env d arg) as [v|err]; [|reflexivity].
  rewrite <- (IH (S k) (pre ++ [arg]) rest).
  - rewrite <- app_assoc. simpl. f_equal.
    apply imap_ext. intros i x _. simpl. f_equal. lia.
  - rewrite length_app. simpl. lia.
Qed.

Lemma Extract_build decls args st :
  length args = length decls ->
  Extract (build env decls) args st = extract_from env decls args 0 st.
Proof.
  intros Hlen. unfold Extract. rewrite build_n, build_validators.
  rewrite (proj2 (Nat.eqb_eq _ _) Hlen). simpl.
  exact (run_validators_imap decls 0 [] args st eq_refl).
Qed.

Lemma Extract_arity decls args st :
  length args <> length decls ->
  Extract (build env decls) args st
  = (st, Some (EArgCount (length decls) (length args))).
Proof.
  intros Hlen. unfold Extract. rewrite build_n.
  rewrite (proj2 (Nat.eqb_neq _ _) Hlen). reflexivity.
Qed.

(** The first argument that fails its extraction is reported by index. *)
Lemma extract_from_first_failure decls : forall args k st i d arg err,
  decls !! i = Some d -> args !! i = Some arg ->
  extraction env d arg = Err err ->
  (forall j d' arg', j < i -> decls !! j = Some d' -> args !! j = Some arg' ->
     is_ok (extraction env d' arg') = true) ->
  (extract_from env decls args k st).2 = Some (EBadArgument (k + i) err).
Proof.
  induction decls as [|d0 decls IH]; intros args k st i d arg err Hd Ha He Hprev;
    [discriminate|].
  destruct args as [|a0 args]; [discriminate|].
  destruct i as [|i]; simpl in *.
  - injection Hd as ->. injection Ha as ->. rewrite He. simpl.
    rewrite Nat.add_0_r. reflexivity.
  - specialize (Hprev 0 d0 a0 ltac:(lia) eq_refl eq_refl) as H0.
    destruct (extraction env d0 a0) as [v|]; [|discriminate].
    rewrite (IH args (S k) _ i d arg err Hd Ha He).
    + do 2 f_equal. lia.
    + intros j d' arg' Hj. apply (Hprev (S j)). lia.
Qed.

Lemma extract_from_success decls : forall args k st,
  length args = length decls ->
  (forall j d' arg', decls !! j = Some d' -> args !! j = Some arg' ->
     is_ok (extraction env d' arg') = true) ->
  (extract_from env decls args k st).2 = None.
Proof.
  induction decls as [|d0 decls IH]; intros args k st Hlen Hall; [reflexivity|].
  destruct args as [|a0 args]; [discriminate|]. simpl.
  specialize (Hall 0 d0 a0 eq_refl eq_refl) as H0.
  destruct (extraction env d0 a0) as [v|]; [|discriminate].
  apply IH; [simpl in Hlen; lia|].
  intros j d' arg'. apply (Hall (S j)).
Qed.

Lemma extract_from_untouched decls : forall args k st p,
  (forall j d', decls !! j = Some d' -> decl_ptr d' <> p) ->
  (extract_from env decls args k st).1 !! p = st !! p.
Proof.
  induction decls as [|d0 decls IH]; intros args k st p Hp; [reflexivity|].
  destruct args as [|a0 args]; [reflexivity|]. simpl.
  destruct (extraction env d0 a0) as [v|]; [|reflexivity].
  rewrite IH.
  - apply lookup_insert_ne. exact (Hp 0 d0 eq_refl).
  - intros j d'. apply (Hp (S j)).
Qed.

Lemma extract_from_stored decls : forall args k st i d arg v,
  (forall j d' arg', decls !! j = Some d' -> args !! j = Some arg' ->
     is_ok (extraction env d' arg') = true) ->
  decls !! i = Some d -> args !! i = Some arg ->
  extraction env d arg = Ok v ->
  (forall j d', i < j -> decls !! j = Some d' -> decl_ptr d' <> decl_ptr d) ->
  (extract_from env decls args k st).1 !! decl_ptr d = Some v.
Proof.
  induction decls as [|d0 decls IH]; intros args k st i d arg v Hall Hd Ha Hv Hlater;
    [discriminate|].
  destruct args as [|a0 args]; [discriminate|].
  destruct i as [|i]; simpl in *.
  - injection Hd as ->. injection Ha as ->. rewrite Hv.
    rewrite extract_from_untouched.
    + apply lookup_insert_eq.
    + intros j d'. apply (Hlater (S j)). lia.
  - specialize (Hall 0 d0 a0 eq_refl eq_refl) as H0.
    destruct (extraction env d0 a0) as [v0|]; [|discriminate].
    apply (IH args (S k) _ i d arg v); try assumption.
    + intros j d' arg'. apply (Hall (S j)).
    + intros j d' Hj. apply (Hlater (S j)). lia.
Qed.

(** C8.  For an [ArgSpec] built by [N] registrations and any argument slice:
    a slice of another length is refused with the expected count [N] and the
    received count; otherwise the first argument that fails its typed
    extraction is reported with its 0-based index; otherwise [Extract]
    returns no error and every registered pointer holds the value extracted
    for it (for a pointer registered more than once, that of its last
    position). *)
Theorem Extract_spec decls args st :
  (length args <> length decls ->
     Extract (build env decls) args st
     = (st, Some (EArgCount (length decls) (length args)))) /\
  (length args = length decls ->
     forall i d arg err,
       decls !! i = Some d -> args !! i = Some arg ->
       extraction env d arg = Err err ->
       (forall j d' arg', j < i ->
          decls !! j = Some d' -> args !! j = Some arg' ->
          is_ok (extraction env d' arg') = true) ->
       (Extract (build env decls) args st).2 = Some (EBadArgument i err)) /\
  (length args = length decls ->
     (forall j d' arg',
        decls !! j = Some d' -> args !! j = Some arg' ->
        is_ok (extraction env d' arg') = true) ->
     (Extract (build env decls) args st).2 = None /\
     forall i d arg v,
       decls !! i = Some d -> args !! i = Some arg ->
       extraction env d arg = Ok v ->
       (forall j d', i < j -> decls !! j = Some d' ->
          decl_ptr d' <> decl_ptr d) ->
       (Extract (build env decls) args st).1 !! decl_ptr d = Some v).
Proof.
  split; [apply Extract_arity|].
  split.
  - intros Hlen i d arg err Hd Ha He Hprev.
    rewrite (Extract_build _ _ _ Hlen).
    exact (extract_from_first_failure decls args 0 st i d arg err Hd Ha He Hprev).
  - intros Hlen Hall. rewrite (Extract_build _ _ _ Hlen).
    split; [apply extract_from_success; assumption|].
    intros i d arg v. apply extract_from_stored. assumption.
Qed.

End Facts.

Lemma Extract_spec_witness :
  Extract (build Example.env [DString 1%positive; DInt64 2%positive])
    [VString "a"] ∅
  = (∅, Some (EArgCount 2 1)) /\
  (Extract (build Example.env [DString 1%positive; DInt64 2%positive])
     [VString "a"; VString "b"] ∅).2
  = Some (EBadArgument 1 (ETypeError ValueString [ValueNumber])) /\
  (Extract (build Example.env [DString 1%positive; DInt64 2%positive])
     [VString "a"; VInt 7] ∅).2 = None /\
  (Extract (build Example.env [DString 1%positive; DInt64 2%positive])
     [VString "a"; VInt 7] ∅).1 !! 2%positive = Some (VInt64 7).
Proof.
  split.
  { apply (proj1 (Extract_spec Example.env
             [DString 1%positive; DInt64 2%positive] [VString "a"] ∅)).
    simpl. lia. }
  split.
  { apply (proj1 (proj2 (Extract_spec Example.env
             [DString 1%positive; DInt64 2%positive]
             [VString "a"; VString "b"] ∅)) eq_refl
             1 (DInt64 2%positive) (VString "b")); try reflexivity.
    intros [|j] d' arg' Hj; [|lia]. simpl. intros [= <-] [= <-]. reflexivity. }
  assert (Hall : forall j d' arg',
            [DString 1%positive; DInt64 2%positive] !! j = Some d' ->
            [VString "a"; VInt 7] !! j = Some arg' ->
            is_ok (extraction Example.env d' arg') = true).
  { intros [|[|j]] d' arg'; simpl; try discriminate;
      intros [= <-] [= <-]; reflexivity. }
  destruct (proj2 (proj2 (Extract_spec Example.env
             [DString 1%positive; DInt64 2%positive]
             [VString "a"; VInt 7] ∅)) eq_refl Hall) as [Hnone Hstored].
  split; [exact Hnone|].
  apply (Hstored 1 (DInt64 2%positive) (VInt 7) (VInt64 7));
    try reflexivity.
  intros [|[|j]] d' Hj; simpl; try discriminate; lia.
Defined.

End ArgSpecFacts.

(** ** The mapping executor *)

Module MappingFacts.
Import Query Notions Mapping.

Section Facts.
Context (env : GoEnv).






End Facts.

(** The "map to root" and "no mapping to root" cases of the executor's
    tests: a string at the root becomes the bytes of the part, [Nothing]
    leaves the part as it was. *)
Example map_to_root :
  MapPart Example.env
    {| statements := [ {| line := 0; target := TargetJSON None;
                          query := NewLiteralFunction (VString "bar") |} ];
       named_maps := ∅ |} 0 [Example.part0]
  = Done (Some {| part_bytes := "bar";
                  part_structured := Some (VString "bar");
                  part_metadata := ∅ |}).
Proof. reflexivity. Qed.

Example no_mapping_to_root :
  MapPart Example.env
    {| statements := [ {| line := 0; target := TargetJSON None;
                          query := NewLiteralFunction VNothing |} ];
       named_maps := ∅ |} 0 [Example.part0]
  = Done (Some {| part_bytes := json_Marshal Example.env (VArray [VBool true]);
                  part_structured := Some (VArray [VBool true]);
                  part_metadata := ∅ |}).
Proof. reflexivity. Qed.

(** "meta set all error wrong type": the root of the metadata takes an
    object only. *)
Example meta_root_wrong_type :
  MapPart Example.env
    {| statements := [ {| line := 0; target := TargetMeta None;
                          query := NewLiteralFunction (VString "foo") |} ];
       named_maps := ∅ |} 0 [Example.part0]
  = Failed (MapAssign 0 (MetaRootType ValueString)).
Proof. reflexivity. Qed.

(** A root assignment after a root delete brings the part back. *)
Example delete_then_assign_root :
  MapPart Example.env
    {| statements := [ Example.delete_root_statement;
                       {| line := 1; target := TargetJSON None;
                          query := NewLiteralFunction (VString "back") |} ];
       named_maps := ∅ |} 0 [Example.part0]
  = Done (Some {| part_bytes := "back";
                  part_structured := Some (VString "back");
                  part_metadata := ∅ |}).
Proof. reflexivity. Qed.


End MappingFacts.

(** ** The four passes and the precedence table *)

Module PrecedenceFacts.
Import Query Notions Precedence.

(** *** Cutting sequences *)

Implicit Types (P Q : ArithmeticOperator -> bool).

Lemma split_pairs_cons {A} P op (a : A) pairs :
  split_pairs P ((op, a) :: pairs)
  = if P op
    then ([], (op, (a, (split_pairs P pairs).1)) :: (split_pairs P pairs).2)
    else ((op, a) :: (split_pairs P pairs).1, (split_pairs P pairs).2).
Proof. simpl. destruct (split_pairs P pairs), (P op); reflexivity. Qed.

Lemma split_pairs_ext {A} P P' (pairs : list (ArithmeticOperator * A)) :
  Forall (fun x => P x.1 = P' x.1) pairs ->
  split_pairs P pairs = split_pairs P' pairs.
Proof.
  induction 1 as [|[op a] pairs Hx _ IH]; [reflexivity|].
  rewrite !split_pairs_cons, IH. simpl in Hx. rewrite Hx. reflexivity.
Qed.

Lemma split_pairs_ops {A} P (pairs : list (ArithmeticOperator * A)) :
  Forall (fun x => P x.1 = true) (split_pairs P pairs).2.
Proof.
  induction pairs as [|[op a] pairs IH]; [constructor|].
  rewrite split_pairs_cons. destruct (P op) eqn:HP; simpl; [|exact IH].
  constructor; [exact HP|exact IH].
Qed.

Lemma split_pairs_none {A} P (pairs : list (ArithmeticOperator * A)) :
  Forall (fun x => P x.1 = false) pairs -> split_pairs P pairs = (pairs, []).
Proof.
  induction 1 as [|[op a] pairs Hx _ IH]; [reflexivity|].
  rewrite split_pairs_cons, IH. simpl in Hx. rewrite Hx. reflexivity.
Qed.

(** Cutting at [P'], then cutting the sequence of segments at the coarser
    [P], is cutting at [P] and then each segment at [P']. *)
Lemma split_pairs_twice {A} P P' (pairs : list (ArithmeticOperator * A)) :
  (forall op, P op = true -> P' op = true) ->
  (split_pairs P' pairs).1 = (split_pairs P' (split_pairs P pairs).1).1 /\
  split_pairs P (split_pairs P' pairs).2
  = ((split_pairs P' (split_pairs P pairs).1).2,
     map_pairs (nest P') (split_pairs P pairs).2).
Proof.
  intros Hsub. induction pairs as [|[op a] pairs [IH1 IH2]]; [split; reflexivity|].
  rewrite !split_pairs_cons.
  destruct (P op) eqn:HP.
  - rewrite (Hsub _ HP). cbn [fst snd]. split; [reflexivity|].
    rewrite split_pairs_cons, HP, IH2. cbn [fst snd map_pairs map].
    unfold nest at 1. cbn [fst snd]. rewrite IH1. reflexivity.
  - destruct (P' op) eqn:HP'; cbn [fst snd].
    + rewrite !split_pairs_cons, HP, HP'. cbn [fst snd]. split; [reflexivity|].
      rewrite IH2, IH1. reflexivity.
    + rewrite !split_pairs_cons, HP'. cbn [fst snd]. rewrite IH1, IH2.
      split; reflexivity.
Qed.

Lemma split_pairs_map {A B} (g : A -> B) P (pairs : list (ArithmeticOperator * A)) :
  split_pairs P (map_pairs g pairs)
  = (map_pairs g (split_pairs P pairs).1,
     map_pairs (fun s => (g s.1, map_pairs g s.2)) (split_pairs P pairs).2).
Proof.
  induction pairs as [|[op a] pairs IH]; [reflexivity|].
  change (map_pairs g ((op, a) :: pairs)) with ((op, g a) :: map_pairs g pairs).
  rewrite !split_pairs_cons, IH. destruct (P op); reflexivity.
Qed.

Lemma map_pairs_map_pairs {A B C} (f : B -> C) (g : A -> B)
    (pairs : list (ArithmeticOperator * A)) :
  map_pairs f (map_pairs g pairs) = map_pairs (fun a => f (g a)) pairs.
Proof.
  unfold map_pairs. rewrite map_map. apply map_ext. intros [op a]. reflexivity.
Qed.

Lemma map_pairs_ext {A B} (f g : A -> B) (pairs : list (ArithmeticOperator * A)) :
  (forall a, f a = g a) -> map_pairs f pairs = map_pairs g pairs.
Proof.
  intros H. unfold map_pairs. apply map_ext. intros [op a]. rewrite H. reflexivity.
Qed.

(** *** One pass is a cut followed by a fold of every segment *)

Lemma tree_pass_split Q pairs : forall cur,
  tree_pass Q cur pairs
  = (fold_chain (cur, (split_pairs (fun op => negb (Q op)) pairs).1),
     map_pairs fold_chain (split_pairs (fun op => negb (Q op)) pairs).2).
Proof.
  induction pairs as [|[op t] pairs IH]; intros cur; [reflexivity|].
  rewrite split_pairs_cons. simpl. destruct (Q op); simpl.
  - rewrite IH. reflexivity.
  - rewrite IH. reflexivity.
Qed.

Lemma group_S n c :
  group (S n) c
  = fold_chain
      (group n (c.1, (split_pairs (fun op => n <=? level op) c.2).1),
       map_pairs (group n) (split_pairs (fun op => n <=? level op) c.2).2).
Proof. simpl. destruct (split_pairs _ c.2). reflexivity. Qed.

Lemma group_single n t : group n (t, []) = t.
Proof. induction n as [|n IH]; [reflexivity|]. rewrite group_S. simpl. exact IH. Qed.

(** The passes below level [n] leave the operators of level [n] and above
    in place and turn every segment between them into its tree. *)
Lemma passes_split n : forall c,
  passes n c
  = (group n (c.1, (split_pairs (fun op => n <=? level op) c.2).1),
     map_pairs (group n) (split_pairs (fun op => n <=? level op) c.2).2).
Proof.
  induction n as [|n IH]; intros [x pairs].
  - simpl. f_equal.
    induction pairs as [|[op a] pairs IHp]; [reflexivity|].
    rewrite split_pairs_cons. simpl. simpl in IHp. rewrite <- IHp. reflexivity.
  - cbn [passes]. rewrite IH. cbn [fst snd].
    rewrite tree_pass_split, split_pairs_map.
    rewrite (split_pairs_ext (fun op => negb (at_level n op))
               (fun op => S n <=? level op)).
    2:{ eapply Forall_impl; [apply split_pairs_ops|].
        intros [op s]. cbn [fst]. unfold at_level. intros Hle.
        apply Nat.leb_le in Hle.
        destruct (Nat.eqb_spec (level op) n), (Nat.leb_spec (S n) (level op));
          simpl; try reflexivity; lia. }
    destruct (split_pairs_twice (A:=expr) (fun op => S n <=? level op)
                (fun op => n <=? level op) pairs) as [H1 H2].
    { intros op H. apply Nat.leb_le in H. apply Nat.leb_le. lia. }
    rewrite H1, H2. cbn [fst snd].
    rewrite !map_pairs_map_pairs. f_equal.
    + rewrite group_S. reflexivity.
    + apply map_pairs_ext. intros s. rewrite group_S. reflexivity.
Qed.

Lemma passes_all n c :
  Forall (fun x => level x.1 < n) c.2 -> passes n c = (group n c, []).
Proof.
  intros Hlv. rewrite passes_split.
  rewrite (split_pairs_none (fun op => n <=? level op) c.2).
  - destruct c. reflexivity.
  - eapply Forall_impl; [exact Hlv|]. intros [op a]. simpl.
    intros H. apply Nat.leb_gt. exact H.
Qed.

Lemma level_lt_4 op : level op < 4.
Proof. destruct op; simpl; lia. Qed.

Lemma passes_4 c : passes 4 c = (group 4 c, []).
Proof.
  apply passes_all. apply Forall_forall. intros x _. apply level_lt_4.
Qed.

(** *** The loops, by recursion on the sequence *)

Lemma index_last (done : list Function) cur :
  index (done ++ [cur]) (length (done ++ [cur]) - 1) = Ok cur.
Proof.
  unfold index. rewrite length_app. simpl.
  replace (length done + 1 - 1) with (length done) by lia.
  rewrite lookup_app_r by lia. rewrite Nat.sub_diag. reflexivity.
Qed.

Lemma insert_last (done : list Function) cur f :
  <[length (done ++ [cur]) - 1 := f]> (done ++ [cur]) = done ++ [f].
Proof.
  rewrite length_app. simpl.
  replace (length done + 1 - 1) with (length done + 0) by lia.
  rewrite insert_app_r. reflexivity.
Qed.

Lemma index_middle (pre : list Function) r rest i :
  length pre = i -> index (pre ++ r :: rest) i = Ok r.
Proof.
  intros <-. unfold index. rewrite lookup_app_r by lia.
  rewrite Nat.sub_diag. reflexivity.
Qed.

Lemma range_ops_ext {St} (body body' : nat -> ArithmeticOperator -> St -> result St) ops :
  (forall i op st, body i op st = body' i op st) ->
  forall i st, range_ops body i ops st = range_ops body' i ops st.
Proof.
  intros Hb. induction ops as [|op ops IH]; intros i st; [reflexivity|].
  simpl. rewrite Hb. destruct (body' i op st); simpl; [apply IH|reflexivity].
Qed.

Lemma stepBody_some step mk pre r rest i op done cur opsNew :
  step op = Some mk -> length pre = S i ->
  stepBody step (pre ++ r :: rest) i op (done ++ [cur], opsNew)
  = (f ← mk cur r; Ok (done ++ [f], opsNew)).
Proof.
  intros Hstep Hpre. unfold stepBody. rewrite Hstep, index_last.
  cbn [mbind result_bind].
  rewrite (index_middle pre r rest (i + 1)) by lia.
  cbn [mbind result_bind].
  destruct (mk cur r) as [f|e]; cbn [mbind result_bind]; [|reflexivity].
  rewrite insert_last. reflexivity.
Qed.

Lemma stepBody_none step pre r rest i op done cur opsNew :
  step op = None -> length pre = S i ->
  stepBody step (pre ++ r :: rest) i op (done ++ [cur], opsNew)
  = Ok ((done ++ [cur]) ++ [r], opsNew ++ [op]).
Proof.
  intros Hstep Hpre. unfold stepBody, keep. rewrite Hstep.
  rewrite (index_middle pre r rest (i + 1)) by lia. reflexivity.
Qed.

Lemma range_ops_stepBody step fns : forall ops rest pre done cur opsNew i,
  fns = pre ++ rest -> length pre = S i -> length rest = length ops ->
  range_ops (stepBody step fns) i ops (done ++ [cur], opsNew)
  = (c ← fn_pass step cur (zip ops rest);
     Ok (done ++ c.1 :: map snd c.2, opsNew ++ map fst c.2)).
Proof.
  induction ops as [|op ops IH]; intros rest pre done cur opsNew i -> Hpre Hlen.
  - simpl. rewrite app_nil_r. reflexivity.
  - destruct rest as [|r rest]; [discriminate|].
    change (zip (op :: ops) (r :: rest)) with ((op, r) :: zip ops rest).
    cbn [range_ops fn_pass].
    destruct (step op) as [mk|] eqn:Hstep.
    + rewrite (stepBody_some _ _ _ _ _ _ _ _ _ _ Hstep Hpre).
      destruct (mk cur r) as [f|e]; cbn [mbind result_bind]; [|reflexivity].
      rewrite (IH rest (pre ++ [r]) done f opsNew (S i)).
      * reflexivity.
      * rewrite <- app_assoc. reflexivity.
      * rewrite length_app. simpl. lia.
      * simpl in Hlen. lia.
    + rewrite (stepBody_none _ _ _ _ _ _ _ _ _ Hstep Hpre).
      cbn [mbind result_bind].
      rewrite (IH rest (pre ++ [r]) (done ++ [cur]) r (opsNew ++ [op]) (S i)).
      * destruct (fn_pass step r (zip ops rest)) as [c|e];
          cbn [mbind result_bind]; [|reflexivity].
        cbn [fst snd map]. rewrite <- !app_assoc. reflexivity.
      * rewrite <- app_assoc. reflexivity.
      * rewrite length_app. simpl. lia.
      * simpl in Hlen. lia.
Qed.

Lemma zip_fst_snd {A B} (l : list (A * B)) : zip (map fst l) (map snd l) = l.
Proof. induction l as [|[a b] l IH]; simpl; [|rewrite IH]; reflexivity. Qed.

Lemma runPass_stepBody body step f0 rest ops :
  (forall fns i op st, body fns i op st = stepBody step fns i op st) ->
  length rest = length ops ->
  runPass body (f0 :: rest) ops = unchain <$> fn_pass step f0 (zip ops rest).
Proof.
  intros Hb Hlen. unfold runPass.
  change (index (f0 :: rest) 0) with (Ok f0). cbn [mbind result_bind].
  rewrite (range_ops_ext _ (stepBody step (f0 :: rest)) ops (Hb _)).
  transitivity (range_ops (stepBody step (f0 :: rest)) 0 ops ([] ++ [f0], []));
    [reflexivity|].
  rewrite (range_ops_stepBody step (f0 :: rest) ops rest [f0] [] f0 [] 0
             eq_refl eq_refl Hlen).
  destruct (fn_pass step f0 (zip ops rest)); reflexivity.
Qed.

Lemma runPass_unchain body step c :
  (forall fns i op st, body fns i op st = stepBody step fns i op st) ->
  runPass body (unchain c).1 (unchain c).2 = unchain <$> fn_pass step c.1 c.2.
Proof.
  intros Hb. unfold unchain. cbn [fst snd].
  rewrite (runPass_stepBody body step) by (assumption || rewrite !length_map; reflexivity).
  rewrite zip_fst_snd. reflexivity.
Qed.

Section Passes.
Context (env : GoEnv).

Lemma firstPass_step fns i op st :
  firstPass env fns i op st = stepBody (step1 env) fns i op st.
Proof.
  destruct st as [fnsNew opsNew]. unfold firstPass, stepBody, step1.
  destruct op; simpl; try reflexivity; unfold replaceLast;
    (destruct (index fnsNew _); simpl; [|reflexivity]);
    destruct (index fns _); reflexivity.
Qed.

Lemma secondPass_step fns i op st :
  secondPass env fns i op st = stepBody (step2 env) fns i op st.
Proof.
  destruct st as [fnsNew opsNew]. unfold secondPass, stepBody, step2.
  destruct op; reflexivity.
Qed.

Lemma thirdPass_step fns i op st :
  thirdPass env fns i op st = stepBody (step3 env) fns i op st.
Proof.
  destruct st as [fnsNew opsNew]. unfold thirdPass, stepBody, step3.
  destruct op; reflexivity.
Qed.

Lemma fourthPass_step fns i op st :
  fourthPass fns i op st = stepBody step4 fns i op st.
Proof.
  destruct st as [fnsNew opsNew]. unfold fourthPass, stepBody, step4.
  destruct op; simpl; try reflexivity; unfold replaceLast;
    (destruct (index fnsNew _); simpl; [|reflexivity]);
    destruct (index fns _); reflexivity.
Qed.

Lemma NewArithmeticExpression_chain f0 rest ops :
  length rest = length ops ->
  NewArithmeticExpression env (f0 :: rest) ops
  = (fn_pass (step1 env) f0 (zip ops rest)) ≫= (fun c => after_first env (unchain c)).
Proof.
  intros Hlen. unfold NewArithmeticExpression.
  destruct rest as [|r rest], ops as [|op ops]; try discriminate.
  - reflexivity.
  - assert (H1 : (length (f0 :: r :: rest) =? 1) && (length (op :: ops) =? 0)
                 = false) by reflexivity.
    assert (H2 : (length (f0 :: r :: rest) =? length (op :: ops) + 1) = true)
      by (apply Nat.eqb_eq; simpl in *; lia).
    rewrite H1, H2. cbn [negb].
    rewrite (runPass_stepBody _ (step1 env) f0 (r :: rest) (op :: ops)
               (firstPass_step) Hlen).
    destruct (fn_pass (step1 env) f0 _) as [c|e]; [|reflexivity].
    destruct c as [x pairs]. reflexivity.
Qed.

(** *** What a pass builds agrees with the tree it stands for *)

Lemma eval_strict op l r ctx :
  strict op = true ->
  eval env (EBin op l r) ctx
  = (lv ← eval env l ctx; rv ← eval env r ctx; opFunc env op lv rv).
Proof. destruct op; try discriminate; reflexivity. Qed.

Lemma arithmeticFunc_Exec l r f g :
  arithmeticFunc l r f = Ok g ->
  forall ctx, Exec g ctx = (lv ← Exec l ctx; rv ← Exec r ctx; f lv rv).
Proof.
  intros H ctx.
  assert (Hc : Exec (arithmeticClosure l r f) ctx
               = (lv ← Exec l ctx; rv ← Exec r ctx; f lv rv)).
  { simpl. destruct (Exec l ctx); simpl; [|reflexivity].
    destruct (Exec r ctx); reflexivity. }
  destruct l as [a|], r as [b|]; simpl in H;
    try (injection H as <-; exact Hc).
  destruct (f a b) as [v|e] eqn:Hf; [|discriminate].
  injection H as <-. simpl. symmetry. exact Hf.
Qed.

Lemma arithmeticFunc_agrees op l r g tl tr :
  strict op = true ->
  arithmeticFunc l r (opFunc env op) = Ok g ->
  agrees env l tl -> agrees env r tr ->
  agrees env g (EBin op tl tr).
Proof.
  intros Hs Hg Hl Hr ctx.
  rewrite (arithmeticFunc_Exec _ _ _ _ Hg), (eval_strict _ _ _ _ Hs), Hl, Hr.
  reflexivity.
Qed.

Lemma coalesce_agrees l r tl tr :
  agrees env l tl -> agrees env r tr ->
  agrees env (coalesce l r) (EBin ArithmeticPipe tl tr).
Proof.
  intros Hl Hr ctx. simpl. rewrite <- Hl, <- Hr.
  destruct (Exec l ctx) as [v|]; [|reflexivity].
  destruct (IIsNull v); reflexivity.
Qed.

Lemma boolAnd_agrees l r tl tr :
  agrees env l tl -> agrees env r tr ->
  agrees env (boolAnd l r) (EBin ArithmeticAnd tl tr).
Proof.
  intros Hl Hr ctx. simpl. rewrite <- Hl, <- Hr.
  destruct (Exec l ctx) as [v|]; simpl; [|reflexivity].
  destruct (IGetBool v) as [[|]|]; reflexivity.
Qed.

Lemma boolOr_agrees l r tl tr :
  agrees env l tl -> agrees env r tr ->
  agrees env (boolOr l r) (EBin ArithmeticOr tl tr).
Proof.
  intros Hl Hr ctx. simpl. rewrite <- Hl, <- Hr.
  destruct (Exec l ctx) as [v|]; simpl; [|reflexivity].
  destruct (IGetBool v) as [[|]|]; reflexivity.
Qed.

Lemma step1_sound : step_sound env (step1 env) (at_level 0).
Proof.
  intros op. destruct op; simpl; try reflexivity; (split; [reflexivity|]);
    intros l r f tl tr Hf Hl Hr;
    try (eapply arithmeticFunc_agrees; [reflexivity|eassumption..]).
  injection Hf as <-. apply coalesce_agrees; assumption.
Qed.

Lemma step2_sound : step_sound env (step2 env) (at_level 1).
Proof.
  intros op. destruct op; simpl; try reflexivity; (split; [reflexivity|]);
    intros l r f tl tr Hf Hl Hr;
    (eapply arithmeticFunc_agrees; [reflexivity|eassumption..]).
Qed.

Lemma step3_sound : step_sound env (step3 env) (at_level 2).
Proof.
  intros op. destruct op; simpl; try reflexivity; (split; [reflexivity|]);
    intros l r f tl tr Hf Hl Hr;
    (eapply arithmeticFunc_agrees; [reflexivity|eassumption..]).
Qed.

Lemma step4_sound : step_sound env step4 (at_level 3).
Proof.
  intros op. destruct op; simpl; try reflexivity; (split; [reflexivity|]);
    intros l r f tl tr Hf Hl Hr; injection Hf as <-;
    (apply boolAnd_agrees || apply boolOr_agrees); assumption.
Qed.

Lemma fn_pass_agrees step Q :
  step_sound env step Q ->
  forall pairs tpairs,
    Forall2 (fun x y => x.1 = y.1 /\ agrees env x.2 y.2) pairs tpairs ->
    forall cur tcur c,
      fn_pass step cur pairs = Ok c ->
      agrees env cur tcur ->
      chain_agrees env c (tree_pass Q tcur tpairs).
Proof.
  intros Hstep pairs tpairs Hpairs.
  induction Hpairs as [|[op f] [op' t] pairs tpairs [Hop Hft] _ IH];
    intros cur tcur c Hc Hcur.
  - injection Hc as <-. split; [exact Hcur|constructor].
  - simpl in Hop, Hft. subst op'. simpl in Hc. simpl.
    specialize (Hstep op). destruct (step op) as [mk|].
    + destruct Hstep as [-> Hmk].
      destruct (mk cur f) as [cur'|] eqn:Hcur'; [|discriminate].
      simpl in Hc. eapply IH; [exact Hc|].
      eapply Hmk; eassumption.
    + rewrite Hstep.
      destruct (fn_pass step f pairs) as [c'|] eqn:Hc'; [|discriminate].
      injection Hc as <-.
      destruct (IH f t c' Hc' Hft) as [H1 H2].
      split; [exact Hcur|]. constructor; [split; [reflexivity|exact H1]|exact H2].
Qed.

(** *** Leaving after a pass *)

Lemma passes_stable c k j :
  (passes k c).2 = [] -> passes (k + j) c = passes k c.
Proof.
  intros Hk. induction j as [|j IH].
  - rewrite Nat.add_0_r. reflexivity.
  - rewrite Nat.add_succ_r. cbn [passes]. rewrite IH, Hk.
    destruct (passes k c) as [x tl]. simpl in Hk. subst tl. reflexivity.
Qed.

Lemma single_agrees c tc k f :
  k <= 4 ->
  chain_agrees env c (passes k tc) ->
  c.2 = [] -> f = c.1 ->
  agrees env f (group 4 tc).
Proof.
  intros Hk [H1 H2] Hnil ->. rewrite Hnil in H2.
  apply Forall2_nil_inv_l in H2. rename H2 into Ht.
  pose proof (passes_stable tc k (4 - k) Ht) as Hst.
  replace (k + (4 - k)) with 4 in Hst by lia.
  rewrite passes_4 in Hst. rewrite <- Hst in H1. exact H1.
Qed.

Lemma after_fourth_eq c :
  after_fourth (unchain c)
  = match c.2 with
    | [] => Ok c.1
    | _ => Err (EUnresolved (map fst c.2))
    end.
Proof. destruct c as [x [|[op g] tl]]; reflexivity. Qed.

Lemma after_third_eq c :
  after_third (unchain c)
  = match c.2 with
    | [] => Ok c.1
    | _ => fn_pass step4 c.1 c.2 ≫= (fun c' => after_fourth (unchain c'))
    end.
Proof.
  destruct c as [x [|[op g] tl]]; [reflexivity|].
  change (after_third (unchain (x, (op, g) :: tl)))
    with (runPass fourthPass (unchain (x, (op, g) :: tl)).1
            (unchain (x, (op, g) :: tl)).2 ≫= after_fourth).
  rewrite (runPass_unchain _ step4 _ fourthPass_step). cbn [fst snd].
  destruct (fn_pass step4 x ((op, g) :: tl)); reflexivity.
Qed.

Lemma after_second_eq c :
  after_second env (unchain c)
  = match c.2 with
    | [] => Ok c.1
    | _ => fn_pass (step3 env) c.1 c.2 ≫= (fun c' => after_third (unchain c'))
    end.
Proof.
  destruct c as [x [|[op g] tl]]; [reflexivity|].
  change (after_second env (unchain (x, (op, g) :: tl)))
    with (runPass (thirdPass env) (unchain (x, (op, g) :: tl)).1
            (unchain (x, (op, g) :: tl)).2 ≫= after_third).
  rewrite (runPass_unchain _ (step3 env) _ thirdPass_step). cbn [fst snd].
  destruct (fn_pass (step3 env) x ((op, g) :: tl)); reflexivity.
Qed.

Lemma after_first_eq c :
  after_first env (unchain c)
  = match c.2 with
    | [] => Ok c.1
    | _ => fn_pass (step2 env) c.1 c.2
           ≫= (fun c' => after_second env (unchain c'))
    end.
Proof.
  destruct c as [x [|[op g] tl]]; [reflexivity|].
  change (after_first env (unchain (x, (op, g) :: tl)))
    with (runPass (secondPass env) (unchain (x, (op, g) :: tl)).1
            (unchain (x, (op, g) :: tl)).2 ≫= after_second env).
  rewrite (runPass_unchain _ (step2 env) _ secondPass_step). cbn [fst snd].
  destruct (fn_pass (step2 env) x ((op, g) :: tl)); reflexivity.
Qed.

(** The function built from a well-formed sequence agrees with the tree of
    the sequence. *)
Lemma resolve_agrees c tc f :
  chain_agrees env c tc ->
  (fn_pass (step1 env) c.1 c.2 ≫= (fun c1 => after_first env (unchain c1))) = Ok f ->
  agrees env f (group 4 tc).
Proof.
  intros [Hc1 Hc2] H.
  destruct (fn_pass (step1 env) c.1 c.2) as [c1|] eqn:H1; [|discriminate].
  cbn [mbind result_bind] in H.
  pose proof (fn_pass_agrees _ _ step1_sound _ _ Hc2 _ _ _ H1 Hc1) as A1.
  change (tree_pass (at_level 0) tc.1 tc.2) with (passes 1 (tc.1, tc.2)) in A1.
  replace (tc.1, tc.2) with tc in A1 by (destruct tc; reflexivity).
  rewrite after_first_eq in H. destruct c1.2 as [|p1 t1] eqn:E1.
  { injection H as <-. exact (single_agrees c1 tc 1 _ ltac:(lia) A1 E1 eq_refl). }
  rewrite <- E1 in H.
  destruct (fn_pass (step2 env) c1.1 c1.2) as [c2|] eqn:H2; [|discriminate].
  cbn [mbind result_bind] in H.
  pose proof (fn_pass_agrees _ _ step2_sound _ _ (proj2 A1) _ _ _ H2 (proj1 A1)) as A2.
  change (tree_pass (at_level 1) (passes 1 tc).1 (passes 1 tc).2)
    with (passes 2 tc) in A2.
  rewrite after_second_eq in H. destruct c2.2 as [|p2 t2] eqn:E2.
  { injection H as <-. exact (single_agrees c2 tc 2 _ ltac:(lia) A2 E2 eq_refl). }
  rewrite <- E2 in H.
  destruct (fn_pass (step3 env) c2.1 c2.2) as [c3|] eqn:H3; [|discriminate].
  cbn [mbind result_bind] in H.
  pose proof (fn_pass_agrees _ _ step3_sound _ _ (proj2 A2) _ _ _ H3 (proj1 A2)) as A3.
  change (tree_pass (at_level 2) (passes 2 tc).1 (passes 2 tc).2)
    with (passes 3 tc) in A3.
  rewrite after_third_eq in H. destruct c3.2 as [|p3 t3] eqn:E3.
  { injection H as <-. exact (single_agrees c3 tc 3 _ ltac:(lia) A3 E3 eq_refl). }
  rewrite <- E3 in H.
  destruct (fn_pass step4 c3.1 c3.2) as [c4|] eqn:H4; [|discriminate].
  cbn [mbind result_bind] in H.
  pose proof (fn_pass_agrees _ _ step4_sound _ _ (proj2 A3) _ _ _ H4 (proj1 A3)) as A4.
  change (tree_pass (at_level 3) (passes 3 tc).1 (passes 3 tc).2)
    with (passes 4 tc) in A4.
  rewrite after_fourth_eq in H. destruct c4.2 as [|p4 t4] eqn:E4; [|discriminate].
  injection H as <-. exact (single_agrees c4 tc 4 _ ltac:(lia) A4 E4 eq_refl).
Qed.

Lemma leaves_agree f0 rest ops :
  chain_agrees env (f0, zip ops rest) (ELeaf f0, zip ops (map ELeaf rest)).
Proof.
  split; [intros ctx; reflexivity|]. cbn [snd].
  revert rest. induction ops as [|op ops IH]; intros [|r rest]; try constructor.
  - split; [reflexivity|]. intros ctx. reflexivity.
  - apply IH.
Qed.

Lemma NewArithmeticExpression_agrees fns ops f :
  NewArithmeticExpression env fns ops = Ok f ->
  exists t, precedence_tree fns ops = Some t /\ agrees env f t.
Proof.
  intros H. destruct fns as [|f0 rest].
  { unfold NewArithmeticExpression in H. simpl in H.
    destruct (length ops + 1) eqn:E; [lia|discriminate]. }
  destruct (Nat.eqb_spec (length rest) (length ops)) as [Hlen|Hlen].
  - rewrite (NewArithmeticExpression_chain _ _ _ Hlen) in H.
    exists (group 4 (ELeaf f0, zip ops (map ELeaf rest))). split.
    + unfold precedence_tree, leaves.
      rewrite (proj2 (Nat.eqb_eq _ _) Hlen). reflexivity.
    + eapply resolve_agrees; [apply leaves_agree|exact H].
  - exfalso. unfold NewArithmeticExpression in H.
    assert (H1 : (length (f0 :: rest) =? 1) && (length ops =? 0) = false).
    { destruct rest, ops; simpl in *; try reflexivity. congruence. }
    assert (H2 : (length (f0 :: rest) =? length ops + 1) = false)
      by (apply Nat.eqb_neq; simpl; lia).
    rewrite H1, H2 in H. discriminate.
Qed.

(** *** What is rejected *)

(** The operators a pass leaves are operators it was given and does not
    resolve. *)
Lemma fn_pass_left step (P : ArithmeticOperator -> Prop) : forall pairs cur c,
  fn_pass step cur pairs = Ok c ->
  Forall (fun x => P x.1) pairs ->
  Forall (fun x => P x.1 /\ step x.1 = None) c.2.
Proof.
  induction pairs as [|[op f] pairs IH]; intros cur c Hc HP.
  - injection Hc as <-. constructor.
  - inversion HP as [|? ? Hop Hrest]; subst. simpl in Hc, Hop.
    destruct (step op) as [mk|] eqn:Hstep.
    + destruct (mk cur f) as [cur'|]; [|discriminate]. exact (IH _ _ Hc Hrest).
    + destruct (fn_pass step f pairs) as [c'|] eqn:Hc'; [|discriminate].
      injection Hc as <-. constructor; [split; assumption|].
      exact (IH _ _ Hc' Hrest).
Qed.

(** A pass fails only where one of its combiners fails. *)
Lemma fn_pass_error step (R : error -> Prop) :
  (forall op mk l r e, step op = Some mk -> mk l r = Err e -> R e) ->
  forall pairs cur e, fn_pass step cur pairs = Err e -> R e.
Proof.
  intros Hmk. induction pairs as [|[op f] pairs IH]; intros cur e He;
    [discriminate|]. simpl in He.
  destruct (step op) as [mk|] eqn:Hstep.
  - destruct (mk cur f) as [cur'|e'] eqn:Hcur.
    + exact (IH _ _ He).
    + injection He as <-. exact (Hmk _ _ _ _ _ Hstep Hcur).
  - destruct (fn_pass step f pairs) as [c'|e'] eqn:Hc'; [discriminate|].
    injection He as <-. exact (IH _ _ Hc').
Qed.

Lemma arithmeticFunc_error l r f e :
  arithmeticFunc l r f = Err e ->
  exists a b, l = Literal a /\ r = Literal b /\ f a b = Err e.
Proof.
  destruct l as [a|], r as [b|]; simpl; try discriminate.
  destruct (f a b) as [v|e'] eqn:Hf; [discriminate|].
  intros [= <-]. eauto.
Qed.

Lemma step1_error op mk l r e :
  step1 env op = Some mk -> mk l r = Err e -> folding_error env e.
Proof.
  destruct op; simpl; intros [= <-]; try discriminate; intros He;
    destruct (arithmeticFunc_error _ _ _ _ He) as (a & b & _ & _ & Hf);
    folding_witness a b Hf.
Qed.

Lemma step2_error op mk l r e :
  step2 env op = Some mk -> mk l r = Err e -> folding_error env e.
Proof.
  destruct op; simpl; intros [= <-]; try discriminate; intros He;
    destruct (arithmeticFunc_error _ _ _ _ He) as (a & b & _ & _ & Hf);
    folding_witness a b Hf.
Qed.

Lemma step3_error op mk l r e :
  step3 env op = Some mk -> mk l r = Err e -> folding_error env e.
Proof.
  destruct op; simpl; intros [= <-]; try discriminate; intros He;
    destruct (arithmeticFunc_error _ _ _ _ He) as (a & b & _ & _ & Hf);
    folding_witness a b Hf.
Qed.

Lemma step4_error op mk l r e :
  step4 op = Some mk -> mk l r = Err e -> folding_error env e.
Proof. destruct op; simpl; intros [= <-]; discriminate. Qed.

Lemma no_step_none op :
  step1 env op = None -> step2 env op = None -> step3 env op = None ->
  step4 op = None -> False.
Proof. destruct op; simpl; discriminate. Qed.

(** A sequence of as many operands as operators plus one is rejected only
    with the error of an operator applied to two literals. *)
Lemma resolve_error c e :
  (fn_pass (step1 env) c.1 c.2 ≫= (fun c1 => after_first env (unchain c1))) = Err e ->
  folding_error env e.
Proof.
  intros H.
  destruct (fn_pass (step1 env) c.1 c.2) as [c1|e1] eqn:H1; cbn [mbind result_bind] in H.
  2:{ injection H as <-. exact (fn_pass_error _ _ step1_error _ _ _ H1). }
  pose proof (fn_pass_left _ (fun _ => True) _ _ _ H1
                ltac:(apply Forall_forall; intros; exact I)) as L1.
  rewrite after_first_eq in H. destruct c1.2 as [|p1 t1] eqn:E1; [discriminate|].
  rewrite <- E1 in H.
  destruct (fn_pass (step2 env) c1.1 c1.2) as [c2|e2] eqn:H2; cbn [mbind result_bind] in H.
  2:{ injection H as <-. exact (fn_pass_error _ _ step2_error _ _ _ H2). }
  rewrite <- E1 in L1.
  pose proof (fn_pass_left (step2 env)
                (fun op => True /\ step1 env op = None) _ _ _ H2 L1) as L2.
  rewrite after_second_eq in H. destruct c2.2 as [|p2 t2] eqn:E2; [discriminate|].
  rewrite <- E2 in H.
  destruct (fn_pass (step3 env) c2.1 c2.2) as [c3|e3] eqn:H3; cbn [mbind result_bind] in H.
  2:{ injection H as <-. exact (fn_pass_error _ _ step3_error _ _ _ H3). }
  rewrite <- E2 in L2.
  pose proof (fn_pass_left (step3 env)
                (fun op => (True /\ step1 env op = None) /\ step2 env op = None)
                _ _ _ H3 L2) as L3.
  rewrite after_third_eq in H. destruct c3.2 as [|p3 t3] eqn:E3; [discriminate|].
  rewrite <- E3 in H.
  destruct (fn_pass step4 c3.1 c3.2) as [c4|e4] eqn:H4; cbn [mbind result_bind] in H.
  2:{ injection H as <-. exact (fn_pass_error _ _ step4_error _ _ _ H4). }
  rewrite <- E3 in L3.
  pose proof (fn_pass_left step4
                (fun op => ((True /\ step1 env op = None) /\ step2 env op = None)
                           /\ step3 env op = None)
                _ _ _ H4 L3) as L4.
  rewrite after_fourth_eq in H. destruct c4.2 as [|p4 t4] eqn:E4; [discriminate|].
  exfalso. inversion L4 as [|? ? [[[[_ N1] N2] N3] N4] _]; subst.
  exact (no_step_none _ N1 N2 N3 N4).
Qed.

Lemma NewArithmeticExpression_rejects fns ops e :
  NewArithmeticExpression env fns ops = Err e ->
  (length fns <> S (length ops) /\ e = EMismatch (length fns) (length ops)) \/
  (length fns = S (length ops) /\ folding_error env e).
Proof.
  intros H. destruct (Nat.eq_dec (length fns) (S (length ops))) as [Hlen|Hlen].
  - right. split; [exact Hlen|].
    destruct fns as [|f0 rest]; [discriminate|].
    rewrite (NewArithmeticExpression_chain f0 rest ops) in H
      by (simpl in Hlen; lia).
    exact (resolve_error (f0, zip ops rest) e H).
  - left. split; [exact Hlen|]. unfold NewArithmeticExpression in H.
    assert (H1 : (length fns =? 1) && (length ops =? 0) = false).
    { destruct (Nat.eqb_spec (length fns) 1), (Nat.eqb_spec (length ops) 0);
        try reflexivity. lia. }
    assert (H2 : (length fns =? length ops + 1) = false)
      by (apply Nat.eqb_neq; lia).
    rewrite H1, H2 in H. injection H as <-. reflexivity.
Qed.

Lemma precedence_tree_three a b c op1 op2 :
  precedence_tree [a; b; c] [op1; op2]
  = Some (if level op2 <? level op1
          then EBin op1 (ELeaf a) (EBin op2 (ELeaf b) (ELeaf c))
          else EBin op2 (EBin op1 (ELeaf a) (ELeaf b)) (ELeaf c)).
Proof. destruct op1, op2; reflexivity. Qed.

(** C2.  The function [NewArithmeticExpression] returns for a sequence it
    accepts evaluates, in every context, as the tree that groups the sequence
    by the precedence table: [*], [/], [%] and [|] tightest, then [+] and
    [-], then the comparisons, then [&&] and [||], operators of one level to
    the left.  For three operands the looser operator is the root, and the
    left one when the levels are equal; so [x + y * z] is [x + (y * z)],
    [|] groups inside [&&], and [a == b || c] is [(a == b) || c].  A
    sequence of one operand more than operators is accepted unless folding
    two literals fails. *)
Theorem precedence_grouping :
  (forall fns ops f,
     NewArithmeticExpression env fns ops = Ok f ->
     exists t, precedence_tree fns ops = Some t /\
               forall ctx, Exec f ctx = eval env t ctx) /\
  (forall fns ops e,
     length fns = S (length ops) ->
     NewArithmeticExpression env fns ops = Err e ->
     folding_error env e) /\
  (forall a b c op1 op2,
     precedence_tree [a; b; c] [op1; op2]
     = Some (if level op2 <? level op1
             then EBin op1 (ELeaf a) (EBin op2 (ELeaf b) (ELeaf c))
             else EBin op2 (EBin op1 (ELeaf a) (ELeaf b)) (ELeaf c))) /\
  (forall x y z,
     precedence_tree [x; y; z] [ArithmeticAdd; ArithmeticMul]
     = Some (EBin ArithmeticAdd (ELeaf x)
               (EBin ArithmeticMul (ELeaf y) (ELeaf z)))) /\
  (forall a x y,
     precedence_tree [a; x; y] [ArithmeticAnd; ArithmeticPipe]
     = Some (EBin ArithmeticAnd (ELeaf a)
               (EBin ArithmeticPipe (ELeaf x) (ELeaf y)))) /\
  (forall x y b,
     precedence_tree [x; y; b] [ArithmeticPipe; ArithmeticAnd]
     = Some (EBin ArithmeticAnd
               (EBin ArithmeticPipe (ELeaf x) (ELeaf y)) (ELeaf b))) /\
  (forall a b c,
     precedence_tree [a; b; c] [ArithmeticEq; ArithmeticOr]
     = Some (EBin ArithmeticOr
               (EBin ArithmeticEq (ELeaf a) (ELeaf b)) (ELeaf c))).
Proof.
  split; [exact NewArithmeticExpression_agrees|].
  split.
  { intros fns ops e Hlen He.
    destruct (NewArithmeticExpression_rejects _ _ _ He) as [[Hne _]|[_ Hf]];
      [contradiction|exact Hf]. }
  split; [exact precedence_tree_three|].
  repeat split; reflexivity.
Qed.

End Passes.

(** 2 + 3 * 4 is folded to 14, the value of 2 + (3 * 4). *)
Lemma precedence_grouping_witness :
  NewArithmeticExpression Example.env
    [Literal (VInt64 2); Literal (VInt64 3); Literal (VInt64 4)]
    [ArithmeticAdd; ArithmeticMul]
  = Ok (Literal (VInt64 14)) /\
  exists t,
    precedence_tree
      [Literal (VInt64 2); Literal (VInt64 3); Literal (VInt64 4)]
      [ArithmeticAdd; ArithmeticMul] = Some t /\
    forall ctx, Exec (Literal (VInt64 14)) ctx = eval Example.env t ctx.
Proof.
  split; [reflexivity|].
  apply (proj1 (precedence_grouping Example.env)
           [Literal (VInt64 2); Literal (VInt64 3); Literal (VInt64 4)]
           [ArithmeticAdd; ArithmeticMul] (Literal (VInt64 14))).
  reflexivity.
Defined.

(** [true && null | 1] is [true && (null | 1)], which is true;
    [(true && null) | 1] would be 1. *)
Example pipe_inside_and :
  (NewArithmeticExpression Example.env
     [Literal (VBool true); Literal VNil; Literal (VInt64 1)]
     [ArithmeticAnd; ArithmeticPipe]
   ≫= fun f => Exec f Example.ctx0)
  = Ok (VBool true).
Proof. reflexivity. Qed.

(** [1 == 2 || true] is [(1 == 2) || true], which is true;
    [1 == (2 || true)] would be a type error. *)
Example comparison_inside_or :
  (NewArithmeticExpression Example.env
     [Literal (VInt64 1); Literal (VInt64 2); Literal (VBool true)]
     [ArithmeticEq; ArithmeticOr]
   ≫= fun f => Exec f Example.ctx0)
  = Ok (VBool true).
Proof. reflexivity. Qed.

(** [10 - 4 - 3] is [(10 - 4) - 3]. *)
Example subtraction_to_the_left :
  NewArithmeticExpression Example.env
    [Literal (VInt64 10); Literal (VInt64 4); Literal (VInt64 3)]
    [ArithmeticSub; ArithmeticSub]
  = Ok (Literal (VInt64 3)).
Proof. reflexivity. Qed.

(** [1 / 2] is the float 0.5, and [7 / 0] is refused when it is built. *)
Example division_is_float :
  NewArithmeticExpression Example.env
    [Literal (VInt64 1); Literal (VInt64 2)] [ArithmeticDiv]
  = Ok (Literal (VFloat64 (S754_finite false 4503599627370496 (-53)))) /\
  NewArithmeticExpression Example.env
    [Literal (VInt64 7); Literal (VInt64 0)] [ArithmeticDiv]
  = Err ErrDivideByZero.
Proof. split; reflexivity. Qed.

(** Operands and operators that do not pair up are refused. *)
Example mismatch_refused :
  NewArithmeticExpression Example.env
    [Literal (VInt64 1); Literal (VInt64 2)] []
  = Err (EMismatch 2 0).
Proof. reflexivity. Qed.

End PrecedenceFacts.

(** * Further properties of the code *)

(** ** type_helpers.go *)

Module TypeHelpersFacts.
Import Query Notions TypeHelpers.

Section Facts.
Context (env : GoEnv).

Lemma ISanitize_sanitized v : sanitized (ISanitize env v) = true.
Proof.
  destruct v; simpl; try reflexivity.
  destruct (Number_Int64 env n); [reflexivity|].
  destruct (Number_Float64 env n); reflexivity.
Qed.

(** X1.  [ISanitize] always returns nil or a value of one of the ten types
    its comment lists, and sanitizing twice is sanitizing once. *)
Theorem ISanitize_normal_form v :
  sanitized (ISanitize env v) = true /\
  ISanitize env (ISanitize env v) = ISanitize env v /\
  (sanitized v = true -> ISanitize env v = v).
Proof.
  split; [|split].
  - apply ISanitize_sanitized.
  - destruct v; simpl; try reflexivity.
    destruct (Number_Int64 env n); [reflexivity|].
    destruct (Number_Float64 env n); reflexivity.
  - destruct v; simpl; try discriminate; reflexivity.
Qed.

Lemma wrap64_in_range z :
  in_int64 z = true -> wrap64 z = z.
Proof.
  unfold in_int64, int64_min, int64_max, wrap64. intros H.
  apply andb_true_iff in H. destruct H as [H1 H2].
  apply Z.leb_le in H1, H2.
  rewrite Z.mod_small by lia. lia.
Qed.

Lemma wrap64_high u :
  (2 ^ 63 <= u < 2 ^ 64)%Z -> wrap64 u = (u - 2 ^ 64)%Z.
Proof.
  intros H. unfold wrap64.
  replace (u + 2 ^ 63)%Z with ((u - 2 ^ 63) + 1 * 2 ^ 64)%Z by lia.
  rewrite Z.mod_add by lia. rewrite Z.mod_small by lia. lia.
Qed.

Lemma in_int64_wrap64 z : in_int64 (wrap64 z) = true.
Proof.
  unfold in_int64, int64_min, int64_max, wrap64.
  pose proof (Z.mod_pos_bound (z + 2 ^ 63) (2 ^ 64) ltac:(lia)) as H.
  apply andb_true_iff. split; apply Z.leb_le; lia.
Qed.

Lemma maxInt_value : maxInt = (2 ^ 63 - 1)%Z.
Proof. reflexivity. Qed.

(** X2.  On a uint64 up to [maxInt] both [IToInt] and [IGetInt] return the
    number itself; above [maxInt], [IToInt] refuses the value while the
    strict [IGetInt] converts it to a negative int64.  On int, int64 and
    float64 values the two agree. *)
Theorem IToInt_unsigned_bound :
  (forall u, (0 <= u <= maxInt)%Z ->
     IToInt env (VUint64 u) = Ok u /\ IGetInt env (VUint64 u) = Ok u) /\
  (forall u, (maxInt < u <= maxUint)%Z ->
     IToInt env (VUint64 u)
     = Err (EOther
         "unsigned integer value is too large to be cast as a signed integer") /\
     IGetInt env (VUint64 u) = Ok (u - 2 ^ 64)%Z /\ (u - 2 ^ 64 < 0)%Z) /\
  (forall i, IToInt env (VInt i) = IGetInt env (VInt i)) /\
  (forall i, IToInt env (VInt64 i) = IGetInt env (VInt64 i)) /\
  (forall f, IToInt env (VFloat64 f) = IGetInt env (VFloat64 f)).
Proof.
  split; [|split; [|repeat split]].
  - intros u Hu. rewrite maxInt_value in Hu. simpl.
    destruct (Z.ltb_spec maxInt u) as [Hlt|_];
      [rewrite maxInt_value in Hlt; lia|].
    rewrite wrap64_in_range; [split; reflexivity|].
    unfold in_int64, int64_min, int64_max.
    apply andb_true_iff. split; apply Z.leb_le; lia.
  - intros u Hu. rewrite maxInt_value in Hu. unfold maxUint in Hu. simpl.
    destruct (Z.ltb_spec maxInt u) as [_|Hle];
      [|rewrite maxInt_value in Hle; lia].
    rewrite wrap64_high by lia. repeat split. lia.
Qed.

(** X3.  The parsing conversions extend the strict extractors: away from
    strings and bytes [IToNumber] is [IGetNumber] and [IToBool] is
    [IGetBool].  A string and the bytes of the same text convert alike;
    text that does not parse as a bool is answered with the type error,
    text that does not parse as a number with the parser's error. *)
Theorem conversions_extend_extractors (ParseBool : string -> option bool) :
  (forall v, ITypeOf v <> ValueString -> ITypeOf v <> ValueBytes ->
     IToNumber env v = IGetNumber env v /\
     IToBool ParseBool v = IGetBool v) /\
  (forall v f, IGetNumber env v = Ok f -> IToNumber env v = Ok f) /\
  (forall v b, IGetBool v = Ok b -> IToBool ParseBool v = Ok b) /\
  (forall s,
     IToNumber env (VBytes s) = IToNumber env (VString s) /\
     IToInt env (VBytes s) = IToInt env (VString s) /\
     IToNumber env (VString s) = IToNumber env (VJsonNumber s) /\
     IToInt env (VString s) = IToInt env (VJsonNumber s)) /\
  (forall s b, ParseBool s = Some b ->
     IToBool ParseBool (VString s) = Ok b /\
     IToBool ParseBool (VBytes s) = Ok b) /\
  (forall s, ParseBool s = None ->
     IToBool ParseBool (VString s) = Err (ETypeError ValueString [ValueBool]) /\
     IToBool ParseBool (VBytes s) = Err (ETypeError ValueBytes [ValueBool])) /\
  (forall s, json_Number_Float64 env s = None ->
     IToNumber env (VString s) = Err (ENumError "ParseFloat" s)).
Proof.
  split; [|split; [|split; [|split; [|split; [|split]]]]].
  - intros v H1 H2. destruct v; simpl in *; try (split; reflexivity); congruence.
  - intros v f. destruct v; simpl; try discriminate; auto.
  - intros v b. destruct v; simpl; try discriminate; auto.
  - intros s. repeat split; reflexivity.
  - intros s b H. simpl. rewrite H. split; reflexivity.
  - intros s H. simpl. rewrite H. split; reflexivity.
  - intros s H. simpl. unfold strconv_ParseFloat, Number_Float64.
    rewrite H. reflexivity.
Qed.

End Facts.

(** *** Cloning *)




Lemma ISanitize_normal_form_witness :
  ISanitize Example.env (VJsonNumber "12") = VInt64 12 /\
  ISanitize Example.env (VArray [VInt 1]) = VArray [VInt 1].
Proof.
  split; [reflexivity|].
  apply (proj2 (proj2 (ISanitize_normal_form Example.env (VArray [VInt 1])))).
  reflexivity.
Defined.

Lemma IToInt_unsigned_bound_witness :
  IToInt Example.env (VUint64 (2 ^ 63))
  = Err (EOther
      "unsigned integer value is too large to be cast as a signed integer") /\
  IGetInt Example.env (VUint64 (2 ^ 63)) = Ok (2 ^ 63 - 2 ^ 64)%Z /\
  IToInt Example.env (VUint64 7) = Ok 7%Z.
Proof.
  assert (H1 : (maxInt < 2 ^ 63 <= maxUint)%Z)
    by (split; [reflexivity|discriminate]).
  assert (H2 : (0 <= 7 <= maxInt)%Z) by (split; discriminate).
  destruct (IToInt_unsigned_bound Example.env) as (Hlow & Hhigh & _).
  destruct (Hhigh _ H1) as (Ha & Hb & _).
  destruct (Hlow _ H2) as (Hc & _).
  split; [exact Ha|]. split; [exact Hb|exact Hc].
Defined.

Lemma conversions_extend_extractors_witness :
  IToBool (fun s => if String.eqb s "true" then Some true else None)
    (VString "true") = Ok true /\
  IToBool (fun s => if String.eqb s "true" then Some true else None)
    (VBytes "yes") = Err (ETypeError ValueBytes [ValueBool]) /\
  IToNumber Example.env (VInt64 3) = IGetNumber Example.env (VInt64 3).
Proof.
  destruct (conversions_extend_extractors Example.env
              (fun s => if String.eqb s "true" then Some true else None))
    as (Hother & _ & _ & _ & Hyes & Hno & _).
  split; [exact (proj1 (Hyes "true" true eq_refl))|].
  split; [exact (proj2 (Hno "yes" eq_refl))|].
  apply (proj1 (Hother (VInt64 3) ltac:(discriminate) ltac:(discriminate))).
Defined.

End TypeHelpersFacts.

(** ** arithmetic.go *)

Module ArithmeticMore.
Import Query Notions TypeHelpers MoreNotions Precedence.

Section Facts.
Context (env : GoEnv).

Lemma numberDegradationFunc_ints iFn fFn l r a b :
  go_int l = Some a -> go_int r = Some b ->
  numberDegradationFunc env iFn fFn l r = VInt64 <$> iFn a b.
Proof.
  intros Hl Hr.
  destruct l; try discriminate; destruct r; try discriminate;
    simpl in Hl, Hr; injection Hl as <-; injection Hr as <-; reflexivity.
Qed.

(** X5.  On operands of type int, int64 or uint64 the operators [+], [-]
    and [*] compute in int64: the result is an int64, it is the exact
    result whenever that fits an int64, and it wraps around otherwise; the
    result is never a float. *)
Theorem integer_arithmetic l r a b :
  go_int l = Some a -> go_int r = Some b ->
  addOp env l r = Ok (VInt64 (wrap64 (a + b))) /\
  subOp env l r = Ok (VInt64 (wrap64 (a - b))) /\
  mulOp env l r = Ok (VInt64 (wrap64 (a * b))) /\
  (forall z, in_int64 (wrap64 z) = true) /\
  (forall z, in_int64 z = true -> wrap64 z = z).
Proof.
  intros Hl Hr. split; [|split; [|split; [|split]]].
  - pose proof (numberDegradationFunc_ints
                  (fun left right => Ok (wrap64 (left + right)))
                  (fun left right => Ok (f64_add left right)) _ _ _ _ Hl Hr)
      as H.
    destruct l; try discriminate; exact H.
  - exact (numberDegradationFunc_ints _ _ _ _ _ _ Hl Hr).
  - exact (numberDegradationFunc_ints _ _ _ _ _ _ Hl Hr).
  - exact TypeHelpersFacts.in_int64_wrap64.
  - exact TypeHelpersFacts.wrap64_in_range.
Qed.

(** X6.  [+] looks at the type of its left operand before anything else: a
    left operand that is neither a number (float64, int, int64, uint64,
    json.Number) nor a string or bytes is refused with a type error naming
    it, whatever the right operand.  That covers int32, uint, uint32 and
    float32 values, which [-] and [*] sanitize and accept. *)
Theorem add_left_operand_type left right :
  ITypeOf left <> ValueNumber -> ITypeOf left <> ValueString ->
  ITypeOf left <> ValueBytes ->
  addOp env left right
  = Err (ETypeError (ITypeOf left) [ValueNumber; ValueString]) /\
  (forall a b,
     left = VInt32 a ->
     subOp env left (VInt64 b) = Ok (VInt64 (wrap64 (a - b))) /\
     mulOp env left (VInt64 b) = Ok (VInt64 (wrap64 (a * b)))).
Proof.
  intros H1 H2 H3. split.
  - destruct left; simpl in *; try reflexivity; congruence.
  - intros a b ->. split; reflexivity.
Qed.

Lemma numberDegradationFunc_left_type iFn fFn l r :
  sanitized_number env l = false ->
  numberDegradationFunc env iFn fFn l r
  = Err (ETypeError (ITypeOf (ISanitize env l)) [ValueNumber]).
Proof.
  unfold sanitized_number, numberDegradationFunc. intros Hl.
  pose proof (TypeHelpersFacts.ISanitize_sanitized env l) as Sl.
  destruct (ISanitize env l); try discriminate;
    destruct (ISanitize env r); reflexivity.
Qed.

Lemma numberDegradationFunc_right_type iFn fFn l r a :
  go_int l = Some a ->
  sanitized_number env r = false ->
  numberDegradationFunc env iFn fFn l r
  = Err (ETypeError (ITypeOf (ISanitize env r)) [ValueNumber]).
Proof.
  unfold sanitized_number, numberDegradationFunc. intros Hl Hr.
  pose proof (TypeHelpersFacts.ISanitize_sanitized env r) as Sr.
  destruct l; try discriminate; simpl;
    destruct (ISanitize env r); try discriminate; reflexivity.
Qed.

(** X7.  [-] and [*] are for numbers only: when the left operand is not a
    number once sanitized, they fail with a type error on the left operand
    whatever the right one is; when the left operand is an integer and the
    right one is not a number, the type error is on the right operand. *)
Theorem sub_mul_numbers_only l r :
  (sanitized_number env l = false ->
     subOp env l r = Err (ETypeError (ITypeOf (ISanitize env l)) [ValueNumber]) /\
     mulOp env l r = Err (ETypeError (ITypeOf (ISanitize env l)) [ValueNumber])) /\
  (forall a, go_int l = Some a -> sanitized_number env r = false ->
     subOp env l r = Err (ETypeError (ITypeOf (ISanitize env r)) [ValueNumber]) /\
     mulOp env l r = Err (ETypeError (ITypeOf (ISanitize env r)) [ValueNumber])).
Proof.
  split.
  - intros Hl. split; apply numberDegradationFunc_left_type; exact Hl.
  - intros a Hl Hr. split; eapply numberDegradationFunc_right_type; eassumption.
Qed.

(** *** Comparisons *)

(** X8.  [!=] never fails: it is the negation of [==] when [==] succeeds,
    and true when [==] fails. *)
Theorem neq_total_and_complement l r :
  exists b,
    compareFn env ArithmeticNeq l r = Ok (VBool b) /\
    (compareFn env ArithmeticEq l r = Ok (VBool (negb b)) \/
     (b = true /\ exists e, compareFn env ArithmeticEq l r = Err e)).
Proof.
  unfold compareFn. simpl.
  destruct (restrictForComparison env l) eqn:El;
    try (eexists; split; [reflexivity|left; rewrite negb_involutive; reflexivity]).
  - destruct (IGetString r) as [s'|e];
      [eexists; split; [reflexivity|left; rewrite negb_involutive; reflexivity]
      |exists true; split; [reflexivity|right; eauto]].
  - destruct (IGetNumber env r) as [f'|e];
      [eexists; split; [reflexivity|left; rewrite negb_involutive; reflexivity]
      |exists true; split; [reflexivity|right; eauto]].
  - destruct (IGetBool r) as [b'|e];
      [eexists; split; [reflexivity|left; rewrite negb_involutive; reflexivity]
      |exists true; split; [reflexivity|right; eauto]].
Qed.

(** X9.  The ordering comparisons are defined on strings and numbers only:
    for any other left operand (null, bool, array, object, [Delete],
    [Nothing]) they fail with a type error on the left operand, whatever
    the right operand is. *)
Theorem ordering_needs_orderable op l r :
  is_ordering op = true -> orderable env l = false ->
  compareFn env op l r = Err (ETypeError (ITypeOf l) []).
Proof.
  unfold orderable, compareFn. intros Hop Hl.
  destruct (restrictForComparison env l); try discriminate;
    destruct op; try discriminate; reflexivity.
Qed.

(** X10.  A NaN on the left compares false under [==] and every ordering,
    and true under [!=], against any right operand that is a number. *)
Theorem nan_comparisons op r f :
  is_comparison op = true ->
  IGetNumber env r = Ok f ->
  compareFn env op (VFloat64 S754_nan) r = Ok (VBool (is_ArithmeticNeq op)).
Proof.
  intros Hop Hr. unfold compareFn. simpl. rewrite Hr.
  destruct op; try discriminate; simpl;
    unfold f64_eqb, f64_ltb, f64_leb, SFeqb, SFltb, SFleb;
    destruct f; reflexivity.
Qed.

Lemma string_compare_refl s : (s ?= s)%string = Eq.
Proof.
  pose proof (String.compare_antisym s s) as H.
  destruct (s ?= s)%string; simpl in H; congruence.
Qed.

Lemma string_eqb_compare a b :
  String.eqb a b = match (a ?= b)%string with Eq => true | _ => false end.
Proof.
  destruct (String.eqb_spec a b) as [->|Hne].
  - rewrite string_compare_refl. reflexivity.
  - destruct (a ?= b)%string eqn:E; try reflexivity.
    apply String.compare_eq_iff in E. contradiction.
Qed.

(** X11.  Strings and bytes are totally ordered by the comparisons: with
    [lt] and [eq] the results of [<] and [==], [<=] is [lt || eq], [>] is
    its negation, [>=] is the negation of [lt], [!=] the negation of [eq],
    [>] is [<] with the operands exchanged, and [eq] holds exactly when the
    two texts are the same. *)
Theorem string_comparisons_total l r a b :
  IGetString l = Ok a -> IGetString r = Ok b ->
  exists lt eq,
    compareFn env ArithmeticLt l r = Ok (VBool lt) /\
    compareFn env ArithmeticEq l r = Ok (VBool eq) /\
    compareFn env ArithmeticLte l r = Ok (VBool (lt || eq)) /\
    compareFn env ArithmeticGt l r = Ok (VBool (negb (lt || eq))) /\
    compareFn env ArithmeticGte l r = Ok (VBool (negb lt)) /\
    compareFn env ArithmeticNeq l r = Ok (VBool (negb eq)) /\
    compareFn env ArithmeticGt l r = compareFn env ArithmeticLt r l /\
    (eq = true <-> a = b) /\
    (lt = true -> eq = false).
Proof.
  intros Hl Hr.
  assert (Rl : restrictForComparison env l = VString a)
    by (destruct l; try discriminate; injection Hl as <-; reflexivity).
  assert (Rr : restrictForComparison env r = VString b)
    by (destruct r; try discriminate; injection Hr as <-; reflexivity).
  exists (String.ltb a b), (String.eqb a b).
  unfold compareFn. rewrite Rl, Rr, Hl, Hr. simpl.
  unfold String.ltb, String.leb. rewrite string_eqb_compare.
  rewrite (String.compare_antisym b a).
  destruct (a ?= b)%string eqn:E; simpl; repeat split; try reflexivity;
    try discriminate; intros H; try discriminate.
  - apply String.compare_eq_iff. exact E.
  - subst b. rewrite string_compare_refl in E. discriminate.
  - subst b. rewrite string_compare_refl in E. discriminate.
Qed.

(** *** Boolean operators and coalescing *)

(** X12.  [&&] and [||] short-circuit: when the left side decides the
    result, the right side is not evaluated, so its failure does not
    matter; a failure of the left side is the failure of the whole. *)
Theorem boolean_short_circuit lhs rhs ctx :
  (forall lv, Exec lhs ctx = Ok lv -> IGetBool lv = Ok false ->
     Exec (boolAnd lhs rhs) ctx = Ok (VBool false)) /\
  (forall lv, Exec lhs ctx = Ok lv -> IGetBool lv = Ok true ->
     Exec (boolOr lhs rhs) ctx = Ok (VBool true)) /\
  (forall e, Exec lhs ctx = Err e ->
     Exec (boolAnd lhs rhs) ctx = Err e /\ Exec (boolOr lhs rhs) ctx = Err e) /\
  (forall lv e, Exec lhs ctx = Ok lv -> IGetBool lv = Ok true ->
     Exec rhs ctx = Err e -> Exec (boolAnd lhs rhs) ctx = Err e) /\
  (forall lv e, Exec lhs ctx = Ok lv -> IGetBool lv = Ok false ->
     Exec rhs ctx = Err e -> Exec (boolOr lhs rhs) ctx = Err e).
Proof.
  repeat split; simpl.
  - intros lv -> Hb. simpl. rewrite Hb. reflexivity.
  - intros lv -> Hb. simpl. rewrite Hb. reflexivity.
  - rewrite H. reflexivity.
  - rewrite H. reflexivity.
  - intros lv e -> Hb He. simpl. rewrite Hb. simpl. rewrite He. reflexivity.
  - intros lv e -> Hb He. simpl. rewrite Hb. simpl. rewrite He. reflexivity.
Qed.

(** X13.  Coalescing is associative: [(a | b) | c] and [a | (b | c)]
    evaluate alike in every context, to the first of the three that
    succeeds with a value that is not null. *)
Theorem coalesce_associative a b c ctx :
  Exec (coalesce (coalesce a b) c) ctx = Exec (coalesce a (coalesce b c)) ctx.
Proof.
  rewrite !ArithmeticFacts.coalesce_Exec.
  destruct (Exec a ctx) as [va|]; [destruct (IIsNull va) eqn:Ha|];
    try rewrite Ha; try reflexivity;
    (destruct (Exec b ctx) as [vb|]; [destruct (IIsNull vb) eqn:Hb|]);
    try rewrite Hb; reflexivity.
Qed.

(** *** The resolver at its edges *)

(** X14.  [NewArithmeticExpression] returns a lone function as it is; it
    refuses no functions at all, and any other number of functions that is
    not one more than the number of operators, with the mismatch error
    carrying both counts. *)
Theorem resolver_edges :
  (forall f, NewArithmeticExpression env [f] [] = Ok f) /\
  (forall ops,
     NewArithmeticExpression env [] ops = Err (EMismatch 0 (length ops))) /\
  (forall fns ops,
     length fns <> S (length ops) ->
     NewArithmeticExpression env fns ops
     = Err (EMismatch (length fns) (length ops))).
Proof.
  assert (Hmis : forall fns ops,
             length fns <> S (length ops) ->
             NewArithmeticExpression env fns ops
             = Err (EMismatch (length fns) (length ops))).
  { intros fns ops Hlen. unfold NewArithmeticExpression.
    assert (H1 : (length fns =? 1) && (length ops =? 0) = false).
    { destruct (Nat.eqb_spec (length fns) 1), (Nat.eqb_spec (length ops) 0);
        try reflexivity. lia. }
    assert (H2 : (length fns =? length ops + 1) = false)
      by (apply Nat.eqb_neq; lia).
    rewrite H1, H2. reflexivity. }
  split; [reflexivity|]. split; [|exact Hmis].
  intros ops. apply (Hmis [] ops). simpl. lia.
Qed.

(** *** Folding sequences of literals *)

Lemma fn_pass_literals step :
  (forall op mk l r f,
     step op = Some mk -> strict op = true -> mk l r = Ok f ->
     is_literal l = true -> is_literal r = true -> is_literal f = true) ->
  forall pairs cur c,
    fn_pass step cur pairs = Ok c ->
    is_literal cur = true ->
    Forall (fun x => strict x.1 = true /\ is_literal x.2 = true) pairs ->
    is_literal c.1 = true /\
    Forall (fun x => strict x.1 = true /\ is_literal x.2 = true) c.2.
Proof.
  intros Hmk. induction pairs as [|[op f] pairs IH]; intros cur c Hc Hcur Hall.
  - injection Hc as <-. split; [exact Hcur|constructor].
  - inversion Hall as [|? ? [Hop Hf] Hrest]; subst. simpl in Hc, Hop, Hf.
    destruct (step op) as [mk|] eqn:Hstep.
    + destruct (mk cur f) as [cur'|] eqn:Hcur'; [|discriminate].
      apply (IH cur' c Hc); [|exact Hrest].
      exact (Hmk _ _ _ _ _ Hstep Hop Hcur' Hcur Hf).
    + destruct (fn_pass step f pairs) as [c'|] eqn:Hc'; [|discriminate].
      injection Hc as <-. destruct (IH f c' Hc' Hf Hrest) as [H1 H2].
      split; [exact Hcur|]. constructor; [split; assumption|exact H2].
Qed.

Lemma arithmeticFunc_literal l r g f :
  arithmeticFunc l r g = Ok f ->
  is_literal l = true -> is_literal r = true -> is_literal f = true.
Proof.
  destruct l as [a|], r as [b|]; try discriminate. simpl.
  destruct (g a b); [|discriminate]. intros [= <-] _ _. reflexivity.
Qed.

Lemma step1_literal op mk l r f :
  step1 env op = Some mk -> strict op = true -> mk l r = Ok f ->
  is_literal l = true -> is_literal r = true -> is_literal f = true.
Proof.
  destruct op; simpl; try discriminate; intros [= <-] _;
    apply arithmeticFunc_literal.
Qed.

Lemma step2_literal op mk l r f :
  step2 env op = Some mk -> strict op = true -> mk l r = Ok f ->
  is_literal l = true -> is_literal r = true -> is_literal f = true.
Proof.
  destruct op; simpl; try discriminate; intros [= <-] _;
    apply arithmeticFunc_literal.
Qed.

Lemma step3_literal op mk l r f :
  step3 env op = Some mk -> strict op = true -> mk l r = Ok f ->
  is_literal l = true -> is_literal r = true -> is_literal f = true.
Proof.
  destruct op; simpl; try discriminate; intros [= <-] _;
    apply arithmeticFunc_literal.
Qed.

Lemma step4_literal op mk l r f :
  step4 op = Some mk -> strict op = true -> mk l r = Ok f ->
  is_literal l = true -> is_literal r = true -> is_literal f = true.
Proof. destruct op; simpl; discriminate. Qed.

Lemma resolve_literal c f :
  is_literal c.1 = true ->
  Forall (fun x => strict x.1 = true /\ is_literal x.2 = true) c.2 ->
  (fn_pass (step1 env) c.1 c.2 ≫= (fun c1 => after_first env (unchain c1))) = Ok f ->
  is_literal f = true.
Proof.
  intros Hc1 Hc2 H.
  destruct (fn_pass (step1 env) c.1 c.2) as [c1|] eqn:H1; [|discriminate].
  cbn [mbind result_bind] in H.
  destruct (fn_pass_literals _ step1_literal _ _ _ H1 Hc1 Hc2) as [L1 A1].
  rewrite PrecedenceFacts.after_first_eq in H.
  destruct c1.2 as [|p1 t1] eqn:E1; [injection H as <-; exact L1|].
  rewrite <- E1 in H, A1.
  destruct (fn_pass (step2 env) c1.1 c1.2) as [c2|] eqn:H2; [|discriminate].
  cbn [mbind result_bind] in H.
  destruct (fn_pass_literals _ step2_literal _ _ _ H2 L1 A1) as [L2 A2].
  rewrite PrecedenceFacts.after_second_eq in H.
  destruct c2.2 as [|p2 t2] eqn:E2; [injection H as <-; exact L2|].
  rewrite <- E2 in H, A2.
  destruct (fn_pass (step3 env) c2.1 c2.2) as [c3|] eqn:H3; [|discriminate].
  cbn [mbind result_bind] in H.
  destruct (fn_pass_literals _ step3_literal _ _ _ H3 L2 A2) as [L3 A3].
  rewrite PrecedenceFacts.after_third_eq in H.
  destruct c3.2 as [|p3 t3] eqn:E3; [injection H as <-; exact L3|].
  rewrite <- E3 in H, A3.
  destruct (fn_pass step4 c3.1 c3.2) as [c4|] eqn:H4; [|discriminate].
  cbn [mbind result_bind] in H.
  destruct (fn_pass_literals _ step4_literal _ _ _ H4 L3 A3) as [L4 A4].
  rewrite PrecedenceFacts.after_fourth_eq in H.
  destruct c4.2 as [|p4 t4] eqn:E4; [injection H as <-; exact L4|discriminate].
Qed.

Lemma zip_literals (ops : list ArithmeticOperator) : forall rest : list Function,
  Forall (fun op => strict op = true) ops ->
  Forall (fun f => is_literal f = true) rest ->
  Forall (fun x => strict x.1 = true /\ is_literal x.2 = true) (zip ops rest).
Proof.
  induction ops as [|op ops IH]; intros [|r rest] Hops Hrest;
    try constructor.
  - inversion Hops; inversion Hrest; subst. split; assumption.
  - inversion Hops; inversion Hrest; subst. apply IH; assumption.
Qed.

(** X15.  Constant folding is complete: a sequence of literals joined by
    operators other than [|], [&&] and [||], if accepted, is resolved to a
    single literal, whose value is the value of the precedence tree of the
    sequence in any context. *)
Theorem literals_fold_to_a_literal fns ops f :
  Forall (fun g => is_literal g = true) fns ->
  Forall (fun op => strict op = true) ops ->
  NewArithmeticExpression env fns ops = Ok f ->
  exists v t,
    f = Literal v /\ precedence_tree fns ops = Some t /\
    forall ctx, eval env t ctx = Ok v.
Proof.
  intros Hfns Hops H.
  destruct (PrecedenceFacts.NewArithmeticExpression_agrees env _ _ _ H)
    as (t & Ht & Hag).
  assert (Hlit : is_literal f = true).
  { destruct fns as [|f0 rest]; [discriminate|].
    unfold precedence_tree, leaves in Ht.
    destruct (Nat.eqb_spec (length rest) (length ops)) as [Hlen|];
      [|discriminate].
    rewrite (PrecedenceFacts.NewArithmeticExpression_chain env _ _ _ Hlen) in H.
    inversion Hfns; subst.
    apply (resolve_literal (f0, zip ops rest) f); try assumption.
    apply zip_literals; assumption. }
  destruct f as [v|]; [|discriminate].
  exists v, t. split; [reflexivity|]. split; [exact Ht|].
  intros ctx. symmetry. exact (Hag ctx).
Qed.

(** *** Remainders and comparisons of integers *)

(** X16.  [%] is the truncated remainder of the operands as int64: when it
    succeeds the divisor is not zero, the result is an int64 smaller in
    magnitude than the divisor, and it has the sign of the dividend. *)
Theorem mod_truncated_remainder l r v :
  modOp env l r = Ok v ->
  exists a b m,
    IGetInt env l = Ok a /\ IGetInt env r = Ok b /\ b <> 0%Z /\
    v = VInt64 m /\ a = (b * (a ÷ b) + m)%Z /\ (Z.abs m < Z.abs b)%Z /\
    ((0 <= a)%Z -> (0 <= m)%Z) /\ ((a <= 0)%Z -> (m <= 0)%Z).
Proof.
  unfold modOp. intros H.
  destruct (IGetInt env l) as [a|]; [|discriminate].
  destruct (IGetInt env r) as [b|]; [|discriminate].
  cbn [mbind result_bind] in H.
  destruct (Z.eqb_spec b 0) as [|Hb]; [discriminate|].
  injection H as <-.
  exists a, b, (Z.rem a b). repeat split; try reflexivity.
  - exact Hb.
  - apply Z.quot_rem'.
  - apply Z.rem_bound_abs. exact Hb.
  - intros Ha. apply Z.rem_nonneg; assumption.
  - intros Ha. apply Z.rem_nonpos; assumption.
Qed.

(** X17.  Integers are compared as float64: both operands are converted,
    the left one by [restrictForComparison] and the right one by
    [IGetNumber], and the comparison is that of the two floats.  Two
    different int64 can therefore compare equal. *)
Theorem integers_compare_as_floats :
  (forall op fn l r a b,
     compareNumFn op = Some fn ->
     integer_value l = Some a -> integer_value r = Some b ->
     compareFn env op l r = Ok (VBool (fn (f64_of_Z a) (f64_of_Z b)))) /\
  (exists a b,
     a <> b /\ in_int64 a = true /\ in_int64 b = true /\
     compareFn env ArithmeticEq (VInt64 a) (VInt64 b) = Ok (VBool true) /\
     compareFn env ArithmeticNeq (VInt64 a) (VInt64 b) = Ok (VBool false)).
Proof.
  split.
  - intros op fn l r a b Hfn Hl Hr. unfold compareFn.
    assert (Rl : restrictForComparison env l = VFloat64 (f64_of_Z a))
      by (destruct l; try discriminate; injection Hl as <-; reflexivity).
    assert (Nr : IGetNumber env r = Ok (f64_of_Z b))
      by (destruct r; try discriminate; injection Hr as <-; reflexivity).
    rewrite Rl, Hfn, Nr. reflexivity.
  - exists (2 ^ 53)%Z, (2 ^ 53 + 1)%Z.
    split; [discriminate|]. repeat split; vm_compute; reflexivity.
Qed.

End Facts.

Lemma integer_arithmetic_witness :
  addOp Example.env (VInt64 (2 ^ 63 - 1)) (VInt 1)
  = Ok (VInt64 (wrap64 (2 ^ 63 - 1 + 1))) /\
  wrap64 (2 ^ 63 - 1 + 1) = (- 2 ^ 63)%Z.
Proof.
  split; [|reflexivity].
  apply (proj1 (integer_arithmetic Example.env (VInt64 (2 ^ 63 - 1)) (VInt 1)
                  (2 ^ 63 - 1)%Z 1%Z eq_refl eq_refl)).
Defined.

Lemma add_left_operand_type_witness :
  addOp Example.env (VBool true) (VInt64 1)
  = Err (ETypeError ValueBool [ValueNumber; ValueString]).
Proof.
  apply (proj1 (add_left_operand_type Example.env (VBool true) (VInt64 1)
                  ltac:(discriminate) ltac:(discriminate) ltac:(discriminate))).
Defined.

Lemma sub_mul_numbers_only_witness :
  subOp Example.env (VString "a") (VInt64 1)
  = Err (ETypeError ValueString [ValueNumber]) /\
  mulOp Example.env (VInt64 1) VNil
  = Err (ETypeError ValueNull [ValueNumber]).
Proof.
  split.
  - apply (proj1 (proj1 (sub_mul_numbers_only Example.env (VString "a")
                           (VInt64 1)) eq_refl)).
  - apply (proj2 (proj2 (sub_mul_numbers_only Example.env (VInt64 1) VNil)
                    1%Z eq_refl eq_refl)).
Defined.

Lemma ordering_needs_orderable_witness :
  compareFn Example.env ArithmeticGt (VBool true) (VBool false)
  = Err (ETypeError ValueBool []).
Proof.
  apply (ordering_needs_orderable Example.env ArithmeticGt (VBool true)
           (VBool false) eq_refl eq_refl).
Defined.

Lemma nan_comparisons_witness :
  compareFn Example.env ArithmeticEq (VFloat64 S754_nan) (VFloat64 S754_nan)
  = Ok (VBool false) /\
  compareFn Example.env ArithmeticNeq (VFloat64 S754_nan) (VInt64 1)
  = Ok (VBool true).
Proof.
  split.
  - apply (nan_comparisons Example.env ArithmeticEq (VFloat64 S754_nan)
             S754_nan eq_refl eq_refl).
  - apply (nan_comparisons Example.env ArithmeticNeq (VInt64 1)
             (f64_of_Z 1) eq_refl eq_refl).
Defined.

Lemma string_comparisons_total_witness :
  compareFn Example.env ArithmeticGt (VString "a") (VBytes "b")
  = compareFn Example.env ArithmeticLt (VBytes "b") (VString "a").
Proof.
  destruct (string_comparisons_total Example.env (VString "a") (VBytes "b")
              "a" "b" eq_refl eq_refl)
    as (lt & eq & _ & _ & _ & _ & _ & _ & H & _).
  exact H.
Defined.

Lemma boolean_short_circuit_witness :
  Exec (boolAnd (Literal (VBool false)) (Literal (VString "x"))) Example.ctx0
  = Ok (VBool false) /\
  Exec (boolOr (Literal (VBool true)) (Literal (VString "x"))) Example.ctx0
  = Ok (VBool true).
Proof.
  split.
  - apply (proj1 (boolean_short_circuit (Literal (VBool false))
                    (Literal (VString "x")) Example.ctx0)
             (VBool false) eq_refl eq_refl).
  - apply (proj1 (proj2 (boolean_short_circuit (Literal (VBool true))
                           (Literal (VString "x")) Example.ctx0))
             (VBool true) eq_refl eq_refl).
Defined.

Lemma resolver_edges_witness :
  NewArithmeticExpression Example.env
    [Literal (VInt64 1); Literal (VInt64 2)] []
  = Err (EMismatch 2 0).
Proof.
  apply (proj2 (proj2 (resolver_edges Example.env))
           [Literal (VInt64 1); Literal (VInt64 2)] []).
  simpl. lia.
Defined.

Lemma literals_fold_to_a_literal_witness :
  exists v t,
    Literal (VInt64 7) = Literal v /\
    precedence_tree
      [Literal (VInt64 1); Literal (VInt64 2); Literal (VInt64 3)]
      [ArithmeticAdd; ArithmeticMul] = Some t /\
    forall ctx, eval Example.env t ctx = Ok v.
Proof.
  apply (literals_fold_to_a_literal Example.env
           [Literal (VInt64 1); Literal (VInt64 2); Literal (VInt64 3)]
           [ArithmeticAdd; ArithmeticMul] (Literal (VInt64 7))).
  - repeat constructor.
  - repeat constructor.
  - reflexivity.
Defined.

Lemma mod_truncated_remainder_witness :
  exists a b m,
    IGetInt Example.env (VInt64 (-7)) = Ok a /\
    IGetInt Example.env (VFloat64 (f64_of_Z 2)) = Ok b /\ b <> 0%Z /\
    VInt64 (-1) = VInt64 m /\ a = (b * (a ÷ b) + m)%Z /\
    (Z.abs m < Z.abs b)%Z /\
    ((0 <= a)%Z -> (0 <= m)%Z) /\ ((a <= 0)%Z -> (m <= 0)%Z).
Proof.
  apply (mod_truncated_remainder Example.env (VInt64 (-7))
           (VFloat64 (f64_of_Z 2)) (VInt64 (-1))).
  reflexivity.
Defined.

Lemma integers_compare_as_floats_witness :
  compareFn Example.env ArithmeticLt (VInt 3) (VUint64 4)
  = Ok (VBool (f64_ltb (f64_of_Z 3) (f64_of_Z 4))).
Proof.
  apply (proj1 (integers_compare_as_floats Example.env) ArithmeticLt
           (fun lhs rhs => f64_ltb lhs rhs) (VInt 3) (VUint64 4) 3%Z 4%Z
           eq_refl eq_refl eq_refl).
Defined.

End ArithmeticMore.

(** ** public/bloblang/arguments.go *)

Module ArgSpecMore.
Import Query Notions Bloblang.

Section Facts.
Context (env : GoEnv).

Lemma extract_from_failing_prefix decls : forall args k st i d arg err,
  decls !! i = Some d -> args !! i = Some arg ->
  extraction env d arg = Err err ->
  (forall j d' arg', j < i -> decls !! j = Some d' -> args !! j = Some arg' ->
     is_ok (extraction env d' arg') = true) ->
  (extract_from env decls args k st).1
  = (extract_from env (take i decls) (take i args) k st).1.
Proof.
  induction decls as [|d0 decls IH]; intros args k st i d arg err Hd Ha He Hprev;
    [discriminate|].
  destruct args as [|a0 args]; [discriminate|].
  destruct i as [|i]; simpl in *.
  - injection Hd as ->. injection Ha as ->. rewrite He. reflexivity.
  - specialize (Hprev 0 d0 a0 ltac:(lia) eq_refl eq_refl) as H0.
    destruct (extraction env d0 a0) as [v|]; [|discriminate].
    apply (IH args (S k) _ i d arg err Hd Ha He).
    intros j d' arg' Hj. apply (Hprev (S j)). lia.
Qed.

(** X18.  [Extract] is not atomic.  When the argument at position [i] is the
    first to fail its extraction, the pointers registered before [i] have
    already received their values, and every pointer not registered before
    [i] (that of the failing argument and of the later ones included) holds
    what it held before the call. *)
Theorem Extract_partial_writes decls args st i d arg err :
  length args = length decls ->
  decls !! i = Some d -> args !! i = Some arg ->
  extraction env d arg = Err err ->
  (forall j d' arg', j < i -> decls !! j = Some d' -> args !! j = Some arg' ->
     is_ok (extraction env d' arg') = true) ->
  (forall j d' arg' v,
     j < i -> decls !! j = Some d' -> args !! j = Some arg' ->
     extraction env d' arg' = Ok v ->
     (forall k d'', j < k -> k < i -> decls !! k = Some d'' ->
        decl_ptr d'' <> decl_ptr d') ->
     (Extract (build env decls) args st).1 !! decl_ptr d' = Some v) /\
  (forall p,
     (forall j d', j < i -> decls !! j = Some d' -> decl_ptr d' <> p) ->
     (Extract (build env decls) args st).1 !! p = st !! p).
Proof.
  intros Hlen Hd Ha He Hprev.
  rewrite (ArgSpecFacts.Extract_build env _ _ _ Hlen).
  rewrite (extract_from_failing_prefix decls args 0 st i d arg err Hd Ha He Hprev).
  assert (Hok : forall j d' arg',
            take i decls !! j = Some d' -> take i args !! j = Some arg' ->
            is_ok (extraction env d' arg') = true).
  { intros j d' arg' H1 H2.
    apply lookup_take_Some in H1, H2. destruct H1 as [H1 Hj], H2 as [H2 _].
    exact (Hprev j d' arg' Hj H1 H2). }
  split.
  - intros j d' arg' v Hj Hd' Ha' Hv Hlater.
    apply (ArgSpecFacts.extract_from_stored env (take i decls) (take i args)
             0 st j d' arg' v Hok).
    + apply lookup_take_Some. split; assumption.
    + apply lookup_take_Some. split; assumption.
    + exact Hv.
    + intros k d'' Hk Hd''. apply lookup_take_Some in Hd''.
      destruct Hd'' as [Hd'' Hki]. exact (Hlater k d'' Hk Hki Hd'').
  - intros p Hp. apply ArgSpecFacts.extract_from_untouched.
    intros j d' Hd'. apply lookup_take_Some in Hd'. destruct Hd' as [Hd' Hj].
    exact (Hp j d' Hj Hd').
Qed.

End Facts.

(** The second argument fails: the first pointer has been written, the
    second has not. *)
Lemma Extract_partial_writes_witness :
  (Extract (build Example.env [DString 1%positive; DInt64 2%positive])
     [VString "a"; VString "b"] ∅).1 !! 1%positive = Some (VString "a") /\
  (Extract (build Example.env [DString 1%positive; DInt64 2%positive])
     [VString "a"; VString "b"] ∅).1 !! 2%positive = None.
Proof.
  assert (Hprev : forall j d' arg', j < 1 ->
            [DString 1%positive; DInt64 2%positive] !! j = Some d' ->
            [VString "a"; VString "b"] !! j = Some arg' ->
            is_ok (extraction Example.env d' arg') = true).
  { intros [|j] d' arg' Hj; [|lia]. simpl. intros [= <-] [= <-]. reflexivity. }
  destruct (Extract_partial_writes Example.env
              [DString 1%positive; DInt64 2%positive]
              [VString "a"; VString "b"] ∅ 1 (DInt64 2%positive) (VString "b")
              (ETypeError ValueString [ValueNumber])
              eq_refl eq_refl eq_refl eq_refl Hprev) as [Hw Hu].
  split.
  - apply (Hw 0 (DString 1%positive) (VString "a") (VString "a"));
      try reflexivity; [lia|]. intros k d'' Hk1 Hk2. lia.
  - etransitivity; [apply (Hu 2%positive)|reflexivity].
    intros [|j] d' Hj; [|lia]. simpl. intros [= <-]. discriminate.
Defined.

End ArgSpecMore.

(** ** internal/codec/writer.go *)

Module CodecFacts.
Import Query Codec.

Lemma prefix_append p s : String.prefix p (String.append p s) = true.
Proof.
  induction p as [|a p IH]; simpl; [destruct s; reflexivity|].
  destruct (ascii_dec a a) as [_|Hne]; [exact IH|contradiction].
Qed.

Lemma prefix_inv p : forall s,
  String.prefix p s = true -> exists d, s = String.append p d.
Proof.
  induction p as [|a p IH]; intros s H.
  - exists s. reflexivity.
  - destruct s as [|b s]; simpl in H; [discriminate|].
    destruct (ascii_dec a b) as [->|]; [|discriminate].
    destruct (IH s H) as [d ->]. exists d. reflexivity.
Qed.

Lemma substring_all s : substring 0 (String.length s) s = s.
Proof. induction s as [|a s IH]; simpl; [reflexivity|rewrite IH; reflexivity]. Qed.

Lemma TrimPrefix_append p d :
  strings_TrimPrefix (String.append p d) p = d.
Proof.
  unfold strings_TrimPrefix, strings_HasPrefix. rewrite prefix_append.
  induction p as [|a p IH]; simpl.
  - rewrite Nat.sub_0_r. apply substring_all.
  - exact IH.
Qed.

Lemma append_nil_r s : String.append s EmptyString = s.
Proof.
  induction s as [|a s IH]; [reflexivity|].
  change (String a (String.append s EmptyString) = String a s).
  rewrite IH. reflexivity.
Qed.

Lemma append_assoc s1 s2 s3 :
  String.append (String.append s1 s2) s3
  = String.append s1 (String.append s2 s3).
Proof.
  induction s1 as [|a s1 IH]; [reflexivity|].
  change (String a (String.append (String.append s1 s2) s3)
          = String a (String.append s1 (String.append s2 s3))).
  rewrite IH. reflexivity.
Qed.

Lemma length_zero_empty s : (String.length s =? 0) = true <-> s = EmptyString.
Proof. destruct s; simpl; split; intros H; try reflexivity; discriminate. Qed.

Lemma GetWriter_delim (W : Type) d :
  d <> EmptyString ->
  GetWriter (W := W) (String.append "delim:" d)
  = Ok (fun w => newCustomDelimWriter w d, customDelimConfig).
Proof.
  intros Hd. unfold GetWriter.
  change (String.eqb (String.append "delim:" d) "all-bytes") with false.
  change (String.eqb (String.append "delim:" d) "append") with false.
  change (String.eqb (String.append "delim:" d) "lines") with false.
  cbv iota. unfold strings_HasPrefix at 1. rewrite prefix_append.
  rewrite TrimPrefix_append.
  destruct (String.length d =? 0) eqn:E; [|reflexivity].
  apply length_zero_empty in E. contradiction.
Qed.

(** X19.  [GetWriter] knows the codecs all-bytes, append and lines and the
    codecs made of delim: and a delimiter that is not empty, and no other;
    only all-bytes truncates the file and closes it after each message,
    every other codec appends; delim: with nothing behind it is refused
    with an error of its own. *)
Theorem GetWriter_accepts (W : Type) codec :
  (is_ok (GetWriter (W := W) codec) = true <->
     codec = "all-bytes" \/ codec = "append" \/ codec = "lines" \/
     exists d, d <> EmptyString /\ codec = String.append "delim:" d) /\
  (forall ctor cfg, GetWriter (W := W) codec = Ok (ctor, cfg) ->
     Truncate cfg = String.eqb codec "all-bytes" /\
     CloseAfter cfg = String.eqb codec "all-bytes" /\
     Append cfg = negb (String.eqb codec "all-bytes")) /\
  GetWriter (W := W) "delim:"
  = Err (EOther "custom delimiter codec requires a non-empty delimiter") /\
  (is_ok (GetWriter (W := W) codec) = false ->
   codec <> "delim:" ->
   GetWriter (W := W) codec
   = Err (EOther (String.append "codec was not recognised: " codec))).
Proof.
  split; [|split; [|split]].
  - split.
    + unfold GetWriter.
      destruct (String.eqb_spec codec "all-bytes") as [->|_]; [auto|].
      destruct (String.eqb_spec codec "append") as [->|_]; [auto|].
      destruct (String.eqb_spec codec "lines") as [->|_]; [auto|].
      unfold strings_HasPrefix at 1.
      destruct (String.prefix "delim:" codec) eqn:Hp; [|discriminate].
      destruct (prefix_inv _ _ Hp) as [d ->]. rewrite TrimPrefix_append.
      destruct (String.length d =? 0) eqn:E; [discriminate|].
      intros _. right. right. right. exists d. split; [|reflexivity].
      intros ->. discriminate.
    + intros [->|[->|[->|(d & Hd & ->)]]]; try reflexivity.
      rewrite (GetWriter_delim W d Hd). reflexivity.
  - intros ctor cfg. unfold GetWriter.
    destruct (String.eqb codec "all-bytes");
      [intros [= _ <-]; repeat split|].
    destruct (String.eqb codec "append");
      [intros [= _ <-]; repeat split|].
    destruct (String.eqb codec "lines");
      [intros [= _ <-]; repeat split|].
    destruct (strings_HasPrefix codec "delim:"); [|discriminate].
    destruct (String.length _ =? 0); [discriminate|].
    intros [= _ <-]; repeat split.
  - reflexivity.
  - unfold GetWriter.
    destruct (String.eqb codec "all-bytes"); [discriminate|].
    destruct (String.eqb codec "append"); [discriminate|].
    destruct (String.eqb codec "lines"); [discriminate|].
    unfold strings_HasPrefix.
    destruct (String.prefix "delim:" codec) eqn:Hp; [|reflexivity].
    destruct (prefix_inv _ _ Hp) as [d ->]. rewrite TrimPrefix_append.
    destruct (String.length d =? 0) eqn:E; [|discriminate].
    apply length_zero_empty in E. subst d. intros _ Hne. contradiction.
Qed.

Section Writers.
Context {W : Type} `{WriteCloser W}.

Lemma lines_simulation cs : forall w,
  exists w' errs,
    do_calls (linesWriter w) cs = (linesWriter w', errs) /\
    do_calls (customDelimWriter w newline) cs
    = (customDelimWriter w' newline, errs).
Proof.
  induction cs as [|c cs IH]; intros w.
  - exists w, []. split; reflexivity.
  - assert (Hc : exists w1 err,
              do_call (linesWriter w) c = (linesWriter w1, err) /\
              do_call (customDelimWriter w newline) c
              = (customDelimWriter w1 newline, err)).
    { destruct c as [p| |]; simpl.
      - destruct (io_Write w p) as [w1 [e|]].
        + exists w1, (Some e). split; reflexivity.
        + destruct (io_Write w1 newline) as [w2 err].
          exists w2, err. split; reflexivity.
      - destruct (io_Write w newline) as [w1 err].
        exists w1, err. split; reflexivity.
      - destruct (io_Close w) as [w1 err].
        exists w1, err. split; reflexivity. }
    destruct Hc as (w1 & err & H1 & H2).
    destruct (IH w1) as (w' & errs & H3 & H4).
    exists w', (err :: errs). simpl. rewrite H1, H2, H3, H4.
    split; reflexivity.
Qed.

(** X20.  The lines codec is the custom delimiter codec with a line break
    for delimiter: under any sequence of calls of [Write], [EndBatch] and
    [Close], on any handle, the two writers make the same calls on the
    handle and return the same errors, and the two codecs ask for the
    handle to be opened in the same way. *)
Theorem lines_is_newline_delim (w : W) cs :
  handle (do_calls (linesWriter w) cs).1
  = handle (do_calls (customDelimWriter w newline) cs).1 /\
  (do_calls (linesWriter w) cs).2
  = (do_calls (customDelimWriter w newline) cs).2 /\
  GetWriter (W := W) "lines" = Ok (newLinesWriter, linesWriterConfig) /\
  GetWriter (W := W) (String.append "delim:" newline)
  = Ok (fun w => newCustomDelimWriter w newline, customDelimConfig) /\
  linesWriterConfig = customDelimConfig.
Proof.
  destruct (lines_simulation cs w) as (w' & errs & H1 & H2).
  rewrite H1, H2. repeat split.
Qed.

Lemma write_parts_delim (content : W -> string) d :
  (forall w b, exists w',
     io_Write w b = (w', None) /\ content w' = String.append (content w) b) ->
  forall ps w, exists w',
    write_parts (customDelimWriter w d) ps = (customDelimWriter w' d, None) /\
    content w'
    = String.append (content w)
        (flatten (map (fun p => String.append p d) ps)).
Proof.
  intros Hio ps. induction ps as [|p ps IH]; intros w.
  - exists w. simpl. rewrite append_nil_r. split; reflexivity.
  - simpl. destruct (Hio w p) as (w1 & E1 & C1). rewrite E1.
    destruct (Hio w1 d) as (w2 & E2 & C2). rewrite E2.
    destruct (IH w2) as (w' & E3 & C3). exists w'. split; [exact E3|].
    rewrite C3, C2, C1. rewrite !append_assoc. reflexivity.
Qed.

Lemma write_parts_allBytes (content : W -> string) :
  (forall w b, exists w',
     io_Write w b = (w', None) /\ content w' = String.append (content w) b) ->
  forall ps w, exists w',
    write_parts (allBytesWriter w) ps = (allBytesWriter w', None) /\
    content w' = String.append (content w) (flatten ps).
Proof.
  intros Hio ps. induction ps as [|p ps IH]; intros w.
  - exists w. simpl. rewrite append_nil_r. split; reflexivity.
  - simpl. destruct (Hio w p) as (w1 & E1 & C1). rewrite E1.
    destruct (IH w1) as (w' & E3 & C3). exists w'. split; [exact E3|].
    rewrite C3, C1. rewrite !append_assoc. reflexivity.
Qed.

(** X21.  On a handle whose writes succeed and append, the custom
    delimiter writer leaves behind every part of a batch followed by the
    delimiter, and [EndBatch] adds one more delimiter; the all-bytes writer
    leaves the parts one after the other with nothing between them, and
    its [EndBatch] writes nothing. *)
Theorem batch_output (content : W -> string) d ps w :
  (forall w b, exists w',
     io_Write w b = (w', None) /\ content w' = String.append (content w) b) ->
  (exists wr,
     write_parts (customDelimWriter w d) ps = (wr, None) /\
     content (handle wr)
     = String.append (content w)
         (flatten (map (fun p => String.append p d) ps)) /\
     (EndBatch wr).2 = None /\
     content (handle (EndBatch wr).1)
     = String.append (content (handle wr)) d) /\
  (exists wr,
     write_parts (allBytesWriter w) ps = (wr, None) /\
     content (handle wr) = String.append (content w) (flatten ps) /\
     EndBatch wr = (wr, None)).
Proof.
  intros Hio. split.
  - destruct (write_parts_delim content d Hio ps w) as (w' & E & C).
    exists (customDelimWriter w' d). split; [exact E|]. split; [exact C|].
    simpl. destruct (Hio w' d) as (w2 & E2 & C2). rewrite E2.
    split; [reflexivity|exact C2].
  - destruct (write_parts_allBytes content Hio ps w) as (w' & E & C).
    exists (allBytesWriter w'). split; [exact E|]. split; [exact C|].
    reflexivity.
Qed.

End Writers.

(** X22.  lib/output/file.go: a delimiter set in the configuration of the
    file output decides the codec whatever the configured codec is, known
    or not: the writer is the custom delimiter writer with that delimiter,
    on a file opened for appending.  With no delimiter the configured
    codec is the one looked up. *)
Theorem NewFile_delim_overrides (W : Type) Codec Delim :
  Delim <> EmptyString ->
  GetWriter (W := W) (NewFile_Codec Codec Delim)
  = Ok (fun w => newCustomDelimWriter w Delim, customDelimConfig) /\
  GetWriter (W := W) (NewFile_Codec Codec EmptyString)
  = GetWriter (W := W) Codec.
Proof.
  intros Hd. split; [|reflexivity].
  unfold NewFile_Codec.
  destruct Delim as [|a s]; [contradiction|]. simpl Nat.ltb. cbv iota.
  apply GetWriter_delim. exact Hd.
Qed.

Lemma GetWriter_accepts_witness :
  GetWriter (W := string) "nope"
  = Err (EOther "codec was not recognised: nope") /\
  is_ok (GetWriter (W := string) "delim:ab") = true.
Proof.
  split.
  - apply (proj2 (proj2 (proj2 (GetWriter_accepts string "nope"))));
      [reflexivity|discriminate].
  - apply (proj1 (GetWriter_accepts string "delim:ab")).
    right. right. right. exists "ab"%string. split; [discriminate|reflexivity].
Defined.

Lemma lines_is_newline_delim_witness :
  handle (do_calls (linesWriter "x")
            [CallWrite "a"; CallWrite "b"; CallEndBatch; CallClose]).1
  = handle (do_calls (customDelimWriter "x" newline)
              [CallWrite "a"; CallWrite "b"; CallEndBatch; CallClose]).1.
Proof.
  apply (proj1 (lines_is_newline_delim (W := string) "x"
                  [CallWrite "a"; CallWrite "b"; CallEndBatch; CallClose])).
Defined.

Lemma batch_output_witness :
  exists wr,
    write_parts (customDelimWriter "x" ",") ["a"; "b"] = (wr, None) /\
    handle wr = "xa,b,"%string.
Proof.
  destruct (batch_output (W := string) (fun w => w) "," ["a"; "b"] "x")
    as [(wr & E & C & _) _].
  - intros w b. exists (String.append w b). split; reflexivity.
  - exists wr. split; [exact E|exact C].
Defined.

Lemma NewFile_delim_overrides_witness :
  GetWriter (W := string) (NewFile_Codec "nonsense" "|")
  = Ok (fun w => newCustomDelimWriter w "|", customDelimConfig).
Proof.
  apply (proj1 (NewFile_delim_overrides string "nonsense" "|"
                  ltac:(discriminate))).
Defined.

End CodecFacts.

(** ** internal/service/manager.go *)

Module ManagerFacts.
Import Manager.

Section Facts.
Context {Input Config E : Type}.
Context (input_New : Config -> Input + E).

(** X23.  A pipe that has been set is the one [GetPipe] returns, under
    that name only.  [UnsetPipe] removes a pipe only when given the very
    channel registered under the name: then the name is no longer found;
    given any other channel, or a name with no pipe, it leaves the manager
    as it is, so that a pipe set anew survives the unsetting of the one it
    replaced. *)
Theorem pipes_set_unset (t : Manager (Input := Input)) name tran :
  (forall n,
     GetPipe (E := E) (SetPipe t name tran) n
     = if decide (n = name) then inl tran else GetPipe t n) /\
  (pipes t !! name = Some tran ->
     GetPipe (E := E) (UnsetPipe t name tran) name = inr ErrPipeNotFound /\
     forall n, n <> name ->
       GetPipe (E := E) (UnsetPipe t name tran) n = GetPipe t n) /\
  (pipes t !! name <> Some tran -> UnsetPipe t name tran = t) /\
  (forall newer, newer <> tran ->
     GetPipe (E := E) (UnsetPipe (SetPipe t name newer) name tran) name
     = inl newer) /\
  inputs (UnsetPipe (SetPipe t name tran) name tran) = inputs t /\
  closed (UnsetPipe (SetPipe t name tran) name tran) = closed t.
Proof.
  repeat split.
  - intros n. unfold GetPipe, SetPipe. simpl.
    destruct (decide (n = name)) as [->|Hne].
    + rewrite lookup_insert_eq. reflexivity.
    + rewrite lookup_insert_ne by congruence. reflexivity.
  - unfold GetPipe, UnsetPipe. rewrite H.
    destruct (decide (tran = tran)) as [_|]; [|contradiction].
    simpl. rewrite lookup_delete_eq. reflexivity.
  - intros n Hne. unfold GetPipe, UnsetPipe. rewrite H.
    destruct (decide (tran = tran)) as [_|]; [|contradiction].
    simpl. rewrite lookup_delete_ne by congruence. reflexivity.
  - intros Hne. unfold UnsetPipe.
    destruct (pipes t !! name) as [otran|]; [|reflexivity].
    destruct (decide (otran = tran)) as [->|]; [contradiction|reflexivity].
  - intros newer Hne. unfold GetPipe, UnsetPipe, SetPipe. simpl.
    rewrite lookup_insert_eq.
    destruct (decide (newer = tran)) as [|_]; [contradiction|].
    simpl. rewrite lookup_insert_eq. reflexivity.
  - unfold UnsetPipe, SetPipe. simpl. rewrite lookup_insert_eq.
    destruct (decide (tran = tran)); reflexivity.
  - unfold UnsetPipe, SetPipe. simpl. rewrite lookup_insert_eq.
    destruct (decide (tran = tran)); reflexivity.
Qed.

(** X24.  [StoreInput] replaces an input only once the new one has been
    built.  When building fails the manager is left as it was and nothing
    is closed.  When it succeeds the new input is the one [AccessInput]
    hands to its closure under that name, the inputs under other names and
    the pipes are as before, and the input that was stored under the name,
    if there was one, is the only one closed. *)
Theorem StoreInput_replaces (t : Manager) name conf :
  (forall e, input_New conf = inr e ->
     StoreInput input_New t name conf = (t, Some (ErrInput e))) /\
  (forall i, input_New conf = inl i ->
     (StoreInput input_New t name conf).2 = None /\
     (forall (S : Type) (fn : Input -> S -> S) s,
        AccessInput (E := E) (StoreInput input_New t name conf).1 name fn s
        = (fn i s, None)) /\
     (forall (S : Type) (fn : Input -> S -> S) s n, n <> name ->
        AccessInput (E := E) (StoreInput input_New t name conf).1 n fn s
        = AccessInput t n fn s) /\
     pipes (StoreInput input_New t name conf).1 = pipes t /\
     closed (StoreInput input_New t name conf).1
     = closed t ++ match inputs t !! name with
                   | Some old => [old]
                   | None => []
                   end).
Proof.
  unfold StoreInput, NewInput. split.
  - intros e ->. reflexivity.
  - intros i ->. simpl. repeat split.
    + intros S fn s. unfold AccessInput. simpl.
      rewrite lookup_insert_eq. reflexivity.
    + intros S fn s n Hne. unfold AccessInput. simpl.
      rewrite lookup_insert_ne by congruence. reflexivity.
    + destruct (inputs t !! name); [reflexivity|].
      rewrite app_nil_r. reflexivity.
Qed.

End Facts.

Lemma pipes_set_unset_witness :
  GetPipe (E := unit)
    (UnsetPipe (SetPipe (SetPipe (NewManager (Input := nat)) "p" 1%positive)
                  "p" 2%positive) "p" 1%positive) "p"
  = inl 2%positive /\
  GetPipe (E := unit)
    (UnsetPipe (SetPipe (NewManager (Input := nat)) "p" 1%positive)
       "p" 1%positive) "p"
  = inr ErrPipeNotFound.
Proof.
  split.
  - apply (proj1 (proj2 (proj2 (proj2
             (pipes_set_unset (E := unit)
                (SetPipe (NewManager (Input := nat)) "p" 1%positive)
                "p" 1%positive)))) 2%positive).
    discriminate.
  - apply (proj1 (proj2
             (pipes_set_unset (E := unit)
                (SetPipe (NewManager (Input := nat)) "p" 1%positive)
                "p" 1%positive))).
    reflexivity.
Defined.

Lemma StoreInput_replaces_witness :
  AccessInput (E := unit)
    (StoreInput (E := unit) (fun conf : nat => inl (conf + 1))
       (NewManager (Input := nat)) "in" 4).1 "in"
    (fun i s => i :: s) []
  = ([5], None).
Proof.
  apply (proj1 (proj2 (proj2 (StoreInput_replaces (E := unit)
           (fun conf : nat => inl (conf + 1)) NewManager "in" 4) 5 eq_refl))).
Defined.

End ManagerFacts.
